(** * The If-Else router of langflow: conditional_router.py

  A shallow embedding of [ConditionalRouterComponent]
  (src/backend/base/langflow/components/logic/conditional_router.py)
  and the properties its description promises: the text predicate
  [evaluate_condition], the once-per-cycle iteration guard
  [iterate_and_stop_once], and the two output accessors
  [true_response] and [false_response]. *)

From Stdlib Require Import ZArith Ascii String.
From stdpp Require Import base decidable option list gmap strings.

Local Open Scope Z_scope.

(** ** Python [str] operations

  A Python [str] is modelled by [string], the sequence of its
  characters.  The three tests below are the ones the component uses:
  [s.startswith(m)], [s.endswith(m)] and [m in s]. *)

Module PyStr.

Fixpoint startswith (s m : string) {struct m} : bool :=
  match m, s with
  | EmptyString, _ => true
  | String _ _, EmptyString => false
  | String c m', String d s' => bool_decide (c = d) && startswith s' m'
  end.

(** [s.endswith(m)]: some tail of [s] is [m]. *)
Fixpoint endswith (s m : string) : bool :=
  bool_decide (s = m) ||
  match s with
  | EmptyString => false
  | String _ s' => endswith s' m
  end.

(** [m in s]: [m] starts some tail of [s]. *)
Fixpoint contains (s m : string) : bool :=
  startswith s m ||
  match s with
  | EmptyString => false
  | String _ s' => contains s' m
  end.

(** [str.lower] on ASCII text: the letters A-Z move to a-z, every
    other character stays. *)
Definition lower_char (c : ascii) : ascii :=
  let n := N_of_ascii c in
  if ((65 <=? n) && (n <=? 90))%N then ascii_of_N (n + 32) else c.

Fixpoint ascii_lower (s : string) : string :=
  match s with
  | EmptyString => EmptyString
  | String c s' => String (lower_char c) (ascii_lower s')
  end.

End PyStr.

(** ** The predicate *)

Section Predicate.

(** [lower] stands for Python's [str.lower]; the predicate only ever
    applies it to both operands, so it is kept abstract here and
    instantiated by [PyStr.ascii_lower] on ASCII text. *)
Variable lower : string -> string.

(** The dict literal of [evaluate_condition]: all five entries are
    computed, then one is looked up. *)
Definition operations (input_text match_text : string) : gmap string bool :=
  <["ends with" := PyStr.endswith input_text match_text]>
  (<["starts with" := PyStr.startswith input_text match_text]>
  (<["contains" := PyStr.contains input_text match_text]>
  (<["not equals" := negb (bool_decide (input_text = match_text))]>
  (<["equals" := bool_decide (input_text = match_text)]> ∅)))).

Definition evaluate_condition
    (input_text match_text operator : string) (case_sensitive : bool) : bool :=
  let '(input_text, match_text) :=
    if negb case_sensitive then (lower input_text, lower match_text)
    else (input_text, match_text) in
  default false (operations input_text match_text !! operator).

End Predicate.

(** The five operator names offered by the component's dropdown,
    [options=["equals", "not equals", "contains", "starts with",
    "ends with"]]. *)
Definition operator_options : list string :=
  ["equals"; "not equals"; "contains"; "starts with"; "ends with"].

Definition recognized (operator : string) : bool :=
  bool_decide (operator ∈ operator_options).

(** ** Values, exceptions and the host graph *)

(** What a slot of the run context may hold.  The router itself only
    ever stores integers; other components of a flow may store text or
    [None] under their own keys. *)
Inductive PyVal : Type :=
| PyInt (z : Z)
| PyStr (s : string)
| PyNone.

Inductive Exn : Type :=
| TypeError.

(** Modelled from the spec: the host graph executor, which lives in
    [langflow.custom] and [langflow.graph] and is not part of the
    excerpt.  It offers per-run keyed storage ([get(key, default)],
    [set(key, value)]) and a [stopEdge(edgeName)] signal; the signals
    are recorded in the order they are sent. *)
Record Graph : Type := mkGraph {
  context : gmap string PyVal;
  stop_signals : list string
}.

Section Router.

Context {Message : Type}.

(** The attributes of one [ConditionalRouterComponent]: its id, the
    seven declared inputs, the private flag [__iteration_updated] and
    the [status] shown by the host. *)
Record Self : Type := mkSelf {
  _id : string;
  input_text : string;
  match_text : string;
  operator : string;
  case_sensitive : bool;
  message : Message;
  max_iterations : Z;
  default_route : string;
  iteration_updated : bool;
  status : option Message
}.

Record State : Type := mkState {
  self : Self;
  graph : Graph
}.

(** Outcome of running a method: a value and the state it leaves, or an
    exception. *)
Inductive Res (A : Type) : Type :=
| Ok (a : A) (st : State)
| Raise (e : Exn).

Definition Py (A : Type) : Type := State -> Res A.

Definition ret {A} (a : A) : Py A := fun st => Ok A a st.

Definition bind {A B} (m : Py A) (k : A -> Py B) : Py B :=
  fun st => match m st with
            | Ok _ a st' => k a st'
            | Raise _ e => Raise B e
            end.

Definition raise {A} (e : Exn) : Py A := fun _ => Raise A e.

Definition gets {A} (f : Self -> A) : Py A := fun st => Ok A (f (self st)) st.

Definition modify_self (f : Self -> Self) : Py unit :=
  fun st => Ok unit tt (mkState (f (self st)) (graph st)).

Definition modify_graph (f : Graph -> Graph) : Py unit :=
  fun st => Ok unit tt (mkState (self st) (f (graph st))).

Definition set_iteration_updated (b : bool) (c : Self) : Self :=
  mkSelf (_id c) (input_text c) (match_text c) (operator c) (case_sensitive c)
         (message c) (max_iterations c) (default_route c) b (status c).

Definition set_status (m : option Message) (c : Self) : Self :=
  mkSelf (_id c) (input_text c) (match_text c) (operator c) (case_sensitive c)
         (message c) (max_iterations c) (default_route c) (iteration_updated c) m.

(** Modelled from the spec: [self.ctx.get(key, default)], the host's
    keyed read of the run context. *)
Definition ctx_get (key : string) (dflt : PyVal) : Py PyVal :=
  fun st => Ok PyVal (default dflt (context (graph st) !! key)) st.

(** Modelled from the spec: [self.update_ctx({key: value})], the host's
    keyed write; it touches that key alone. *)
Definition update_ctx (key : string) (v : PyVal) : Py unit :=
  modify_graph (fun g => mkGraph (<[key := v]> (context g)) (stop_signals g)).

(** Modelled from the spec: [self.stop(output_name)], the signal that
    prunes one output edge. *)
Definition stop (output_name : string) : Py unit :=
  modify_graph (fun g => mkGraph (context g) (stop_signals g ++ [output_name])).

(** [v + 1] in Python: defined on integers, a [TypeError] on text and on
    [None]. *)
Definition add_one (v : PyVal) : Py Z :=
  match v with
  | PyInt z => ret (z + 1)
  | PyStr _ | PyNone => raise TypeError
  end.

End Router.

Arguments Self : clear implicits.
Arguments State : clear implicits.
Arguments Res : clear implicits.
Arguments Py : clear implicits.
Arguments Ok {Message A} a st.
Arguments Raise {Message A} e.

Notation "x <- m ;; k" := (bind m (fun x => k))
  (at level 100, m at next level, right associativity).
Notation "m ;;; k" := (bind m (fun _ => k))
  (at level 100, right associativity).

(** ** The component's methods *)

Section Methods.

Context {Message : Type}.
Variable lower : string -> string.

Definition _pre_run_setup : Py Message unit :=
  modify_self (set_iteration_updated false).

(** The conditional expression that picks the alternate route. *)
Definition alternate_route (route_to_stop : string) : string :=
  if bool_decide (route_to_stop = "false_result") then "true_result"
  else "false_result".

Definition iterate_and_stop_once (route_to_stop : string) : Py Message unit :=
  updated <- gets iteration_updated ;;
  if negb updated then
    _id <- gets _id ;;
    let iteration_key := _id +:+ "_iteration" in
    stored <- ctx_get iteration_key (PyInt 0) ;;
    iteration_count <- add_one stored ;;
    update_ctx iteration_key (PyInt iteration_count) ;;;
    modify_self (set_iteration_updated true) ;;;
    max_iterations <- gets max_iterations ;;
    default_route <- gets default_route ;;
    let route_to_stop :=
      if (max_iterations <=? iteration_count)
         && bool_decide (route_to_stop = default_route)
      then alternate_route route_to_stop
      else route_to_stop in
    stop route_to_stop
  else ret tt.

(** The call [self.evaluate_condition(self.input_text, self.match_text,
    self.operator, case_sensitive=self.case_sensitive)] shared by both
    accessors. *)
Definition evaluate_self : Py Message bool :=
  gets (fun c => evaluate_condition lower (input_text c) (match_text c)
                                    (operator c) (case_sensitive c)).

Definition true_response : Py Message (Message + string) :=
  result <- evaluate_self ;;
  if result then
    msg <- gets message ;;
    modify_self (set_status (Some msg)) ;;;
    iterate_and_stop_once "false_result" ;;;
    msg <- gets message ;;
    ret (inl msg)
  else
    iterate_and_stop_once "true_result" ;;;
    ret (inr "").

Definition false_response : Py Message (Message + string) :=
  result <- evaluate_self ;;
  if negb result then
    msg <- gets message ;;
    modify_self (set_status (Some msg)) ;;;
    iterate_and_stop_once "true_result" ;;;
    msg <- gets message ;;
    ret (inl msg)
  else
    iterate_and_stop_once "false_result" ;;;
    ret (inr "").

End Methods.

(** ** The host's side of an invocation *)

(** The two declared outputs: [Output(name="true_result",
    method="true_response")] and [Output(name="false_result",
    method="false_response")]. *)
Inductive Accessor : Type :=
| TrueResponse
| FalseResponse.

Definition output_name (a : Accessor) : string :=
  match a with
  | TrueResponse => "true_result"
  | FalseResponse => "false_result"
  end.

(** The text and payload inputs a new invocation may bring.  The id,
    [max_iterations] and [default_route] are the instance's
    configuration and stay as they are. *)
Record Inputs (Message : Type) : Type := mkInputs {
  new_input_text : string;
  new_match_text : string;
  new_operator : string;
  new_case_sensitive : bool;
  new_message : Message
}.

Arguments new_input_text {Message} _.
Arguments new_match_text {Message} _.
Arguments new_operator {Message} _.
Arguments new_case_sensitive {Message} _.
Arguments new_message {Message} _.
Arguments mkInputs {Message} _ _ _ _ _.

Section Host.

Context {Message : Type}.
Variable lower : string -> string.

Definition call (a : Accessor) : Py Message (Message + string) :=
  match a with
  | TrueResponse => true_response lower
  | FalseResponse => false_response lower
  end.

Fixpoint call_all (l : list Accessor) : Py Message (list (Message + string)) :=
  match l with
  | [] => ret []
  | a :: l' =>
      r <- call a ;;
      rs <- call_all l' ;;
      ret (r :: rs)
  end.

(** Modelled from the spec: one invocation cycle as the host drives it,
    [_pre_run_setup] and then the output accessors it chooses to
    evaluate, in the order it chooses. *)
Definition cycle (l : list Accessor) : Py Message (list (Message + string)) :=
  _pre_run_setup ;;; call_all l.

Definition set_inputs (i : Inputs Message) (c : Self Message) : Self Message :=
  mkSelf (_id c) (new_input_text i) (new_match_text i) (new_operator i)
         (new_case_sensitive i) (new_message i) (max_iterations c)
         (default_route c) (iteration_updated c) (status c).

(** Modelled from the spec: a graph run revisits the same instance;
    each visit delivers inputs and then performs one cycle in which at
    least one accessor is evaluated. *)
Fixpoint run (visits : list (Inputs Message * Accessor * list Accessor))
  : Py Message unit :=
  match visits with
  | [] => ret tt
  | (i, a, l) :: rest =>
      modify_self (set_inputs i) ;;;
      cycle (a :: l) ;;;
      run rest
  end.

(** *** Vocabulary of the statements *)

Definition iteration_key (c : Self Message) : string := _id c +:+ "_iteration".

(** The counter as the component reads it: the stored integer, 0 for a
    missing key. *)
Definition iteration_count (st : State Message) : Z :=
  match context (graph st) !! iteration_key (self st) with
  | Some (PyInt z) => z
  | _ => 0
  end.

(** The host keeps its side of the contract: the counter slot is empty
    or holds an integer. *)
Definition counter_ok (st : State Message) : bool :=
  match context (graph st) !! iteration_key (self st) with
  | Some (PyStr _) | Some PyNone => false
  | _ => true
  end.

(** The predicate's value on the component's current inputs. *)
Definition result_of (c : Self Message) : bool :=
  evaluate_condition lower (input_text c) (match_text c) (operator c)
                     (case_sensitive c).

(** The edge whose accessor returns the message, and the other one. *)
Definition taken_edge (c : Self Message) : string :=
  if result_of c then "true_result" else "false_result".

Definition untaken_edge (c : Self Message) : string :=
  if result_of c then "false_result" else "true_result".

Definition returns_message (r : Message + string) : bool :=
  match r with
  | inl _ => true
  | inr _ => false
  end.

Definition graph_of {A} (r : Res Message A) : option Graph :=
  match r with
  | Ok _ st => Some (graph st)
  | Raise _ => None
  end.

(** The reading of the invariant "one edge taken, the other one
    stopped" on a cycle in which the host evaluates both outputs. *)
Definition other_edge_stopped (st : State Message) : Prop :=
  exists r_true r_false st' e,
    cycle [TrueResponse; FalseResponse] st = Ok [r_true; r_false] st' /\
    returns_message r_true = negb (returns_message r_false) /\
    stop_signals (graph st') = stop_signals (graph st) ++ [e] /\
    (e = "true_result" \/ e = "false_result") /\
    (e = "true_result" -> returns_message r_true = false) /\
    (e = "false_result" -> returns_message r_false = false).

(** The route [iterate_and_stop_once] hands to [stop] once the counter
    has been raised to [count]. *)
Definition stopped_route (max_iterations : Z) (default_route : string)
    (count : Z) (route_to_stop : string) : string :=
  if (max_iterations <=? count) && bool_decide (route_to_stop = default_route)
  then alternate_route route_to_stop
  else route_to_stop.

(** What an accessor hands back: the message on the taken edge, the
    empty text on the other. *)
Definition response (c : Self Message) (a : Accessor) : Message + string :=
  if bool_decide (output_name a = taken_edge c) then inl (message c)
  else inr "".

(** The graph after the one guarded update of a cycle. *)
Definition guarded_graph (st : State Message) : Graph :=
  let count := iteration_count st + 1 in
  mkGraph (<[iteration_key (self st) := PyInt count]> (context (graph st)))
          (stop_signals (graph st) ++
           [stopped_route (max_iterations (self st)) (default_route (self st))
                          count (untaken_edge (self st))]).

(** Two component records that differ at most in the guard flag and
    the status. *)
Definition same_config (c c' : Self Message) : Prop :=
  set_status None (set_iteration_updated false c) =
  set_status None (set_iteration_updated false c').

(** Two component records of the same instance: same id, cap and
    default route. *)
Definition same_instance (c c' : Self Message) : Prop :=
  _id c = _id c' /\ max_iterations c = max_iterations c' /\
  default_route c = default_route c'.

(** The route both accessors pass to [iterate_and_stop_once] on the
    inputs of a visit. *)
Definition untaken_of (i : Inputs Message) : string :=
  if evaluate_condition lower (new_input_text i) (new_match_text i)
                        (new_operator i) (new_case_sensitive i)
  then "false_result" else "true_result".

(** One stop signal per visit of a run that starts with the counter at
    [count]. *)
Fixpoint signals_of (max_iterations : Z) (default_route : string) (count : Z)
    (visits : list (Inputs Message * Accessor * list Accessor)) : list string :=
  match visits with
  | [] => []
  | (i, _, _) :: rest =>
      stopped_route max_iterations default_route (count + 1) (untaken_of i)
      :: signals_of max_iterations default_route (count + 1) rest
  end.

End Host.

(** *** A concrete instance

    A router whose cap is one visit and whose default route is the
    False edge, comparing "abc" with "abc" in a fresh run. *)

Definition example_self : Self string :=
  mkSelf "router-1" "abc" "abc" "equals" true "payload" 1 "false_result"
         false None.

Definition example_state : State string :=
  mkState example_self (mkGraph ∅ []).

(** A later visit that compares "abc" with "ABC" without regard to
    case, evaluating the True output first and the False output next. *)
Definition example_inputs : Inputs string :=
  mkInputs "abc" "ABC" "equals" false "payload".

Definition example_visit : Inputs string * Accessor * list Accessor :=
  (example_inputs, TrueResponse, [FalseResponse]).

(** ** Construction *)

Section Construction.

Context {Message : Type}.

(** [__init__]: after the base class has stored the attributes, the
    private flag starts out cleared. *)
Definition __init__ : Py Message unit :=
  modify_self (set_iteration_updated false).

End Construction.

(** ** Python truthiness *)

(** [bool(s)] for a [str]: the empty text is falsy. *)
Definition str_truthy (s : string) : bool := negb (bool_decide (s = "")).

(** [bool(v)] for the values of [PyVal]: zero, the empty text and
    [None] are falsy. *)
Definition py_truthy (v : PyVal) : bool :=
  match v with
  | PyInt z => negb (z =? 0)
  | PyStr s => str_truthy s
  | PyNone => false
  end.

(** [bool(d)] for a [dict]: the empty dict is falsy. *)
Definition dict_truthy {V : Type} (d : gmap string V) : bool :=
  negb (bool_decide (size d = 0%nat)).

(** ** The vector store component: components/vectorstores/hcd.py *)

Module HCD.

(** The options of the "Search Type" dropdown. *)
Definition search_type_options : list string :=
  ["Similarity"; "Similarity with score threshold";
   "MMR (Max Marginal Relevance)"].

Definition _map_search_type (search_type : string) : string :=
  default "similarity"
    ((<["MMR (Max Marginal Relevance)" := "mmr"]>
      (<["Similarity with score threshold" := "similarity_score_threshold"]>
       ∅) : gmap string string) !! search_type).

Section SearchArgs.

(** [V] is the type of the values of the metadata filter, with its
    truthiness; [Score] is the type of the score threshold. *)
Variables (V Score : Type).
Variable truthy : V -> bool.

(** The values stored in the search arguments: the number of results,
    the score threshold, the cleaned filter. *)
Inductive SearchArg : Type :=
| ArgInt (z : Z)
| ArgFloat (s : Score)
| ArgFilter (f : gmap string V).

Record SearchInputs : Type := mkSearchInputs {
  number_of_results : Z;
  search_score_threshold : Score;
  search_filter : option (gmap string V)
}.

(** The comprehension [{k: v for k, v in search_filter.items() if k and v}]. *)
Definition clean (search_filter : gmap string V) : gmap string V :=
  filter (fun kv => Is_true (str_truthy kv.1 && truthy kv.2)) search_filter.

Definition _build_search_args (c : SearchInputs) : gmap string SearchArg :=
  let args : gmap string SearchArg :=
    <["score_threshold" := ArgFloat (search_score_threshold c)]>
    (<["k" := ArgInt (number_of_results c)]> ∅) in
  match search_filter c with
  | Some search_filter =>
      if dict_truthy search_filter then
        let clean_filter := clean search_filter in
        if dict_truthy clean_filter
        then <["filter" := ArgFilter clean_filter]> args
        else args
      else args
  | None => args
  end.

End SearchArgs.

Arguments ArgInt {V Score} z.
Arguments ArgFloat {V Score} s.
Arguments ArgFilter {V Score} f.
Arguments mkSearchInputs {V Score} _ _ _.
Arguments number_of_results {V Score} _.
Arguments search_score_threshold {V Score} _.
Arguments search_filter {V Score} _.
Arguments clean {V} truthy search_filter.
Arguments _build_search_args {V Score} truthy c.

Section Ingest.

(** [DataT] are the [Data] objects, [Other] everything else that may
    sit in [ingest_data]; [Doc] are the documents of the vector store. *)
Variables (DataT Other Doc : Type).

(** [Data.to_lc_document], part of [langflow.schema], taken as given. *)
Variable to_lc_document : DataT -> Doc.

(** [vector_store.add_documents], the external store: it succeeds
    ([None]) or raises an exception whose text is returned. *)
Variable add_documents : list Doc -> option string.

Inductive IngestItem : Type :=
| IsData (d : DataT)
| NotData (o : Other).

(** What the method does that can be observed from outside, in order. *)
Inductive Event : Type :=
| DebugAdding (n : nat)
| DebugNothingToAdd
| AddDocuments (docs : list Doc).

Inductive Outcome : Type :=
| Returned
| RaisedTypeError (msg : string)
| RaisedValueError (msg : string).

(** The [for] loop: documents are collected in order; the first item
    that is not a [Data] object stops it. *)
Fixpoint collect (items : list IngestItem) (documents : list Doc)
  : option (list Doc) :=
  match items with
  | [] => Some documents
  | IsData d :: rest => collect rest (documents ++ [to_lc_document d])
  | NotData _ :: _ => None
  end.

Definition _add_documents_to_vector_store
    (ingest_data : option (list IngestItem)) : list Event * Outcome :=
  match collect (default [] ingest_data) [] with
  | None => ([], RaisedTypeError "Vector Store Inputs must be Data objects.")
  | Some documents =>
      match documents with
      | _ :: _ =>
          match add_documents documents with
          | None =>
              ([DebugAdding (length documents); AddDocuments documents],
               Returned)
          | Some e =>
              ([DebugAdding (length documents); AddDocuments documents],
               RaisedValueError
                 ("Error adding documents to AstraDBVectorStore: " +:+ e))
          end
      | [] => ([DebugNothingToAdd], Returned)
      end
  end.

End Ingest.

Arguments IsData {DataT Other} d.
Arguments NotData {DataT Other} o.
Arguments DebugAdding {Doc} n.
Arguments DebugNothingToAdd {Doc}.
Arguments AddDocuments {Doc} docs.
Arguments collect {DataT Other Doc} to_lc_document items documents.
Arguments _add_documents_to_vector_store {DataT Other Doc}
  to_lc_document add_documents ingest_data.

(** An input as [isinstance(_input, Data)] sees it. *)
Definition is_data {DataT Other} (i : IngestItem DataT Other) : bool :=
  match i with
  | IsData _ => true
  | NotData _ => false
  end.

End HCD.

(** ** The LeMUR component: components/assemblyai/assemblyai_lemur.py *)

Module LeMUR.

(** The members of [aai.LemurModel] the component refers to. *)
Inductive LemurModel : Type :=
| claude3_5_sonnet
| claude3_opus
| claude3_haiku
| claude3_sonnet.

(** The options of the "Final Model" dropdown. *)
Definition final_model_options : list string :=
  ["claude3_5_sonnet"; "claude3_opus"; "claude3_haiku"; "claude3_sonnet"].

(** [get_final_model]: the model, or the text of the [ValueError]. *)
Definition get_final_model (model_name : string) : LemurModel + string :=
  if bool_decide (model_name = "claude3_5_sonnet") then inl claude3_5_sonnet
  else if bool_decide (model_name = "claude3_opus") then inl claude3_opus
  else if bool_decide (model_name = "claude3_haiku") then inl claude3_haiku
  else if bool_decide (model_name = "claude3_sonnet") then inl claude3_sonnet
  else inr ("Model name not supported: " +:+ model_name).

End LeMUR.

(** A filter with one usable entry, one empty key and one falsy value. *)
Definition example_filter : gmap string PyVal :=
  <["lang" := PyStr "en"]> (<["" := PyInt 3]> (<["year" := PyInt 0]> ∅)).

Definition example_search : HCD.SearchInputs PyVal Z :=
  HCD.mkSearchInputs 4 0 (Some example_filter).

(** Two [Data] items, converted by the identity, and a store that
    accepts every batch. *)
Definition example_ingest : option (list (HCD.IngestItem string Z)) :=
  Some [HCD.IsData "a"; HCD.IsData "b"].

Definition example_to_lc_document (d : string) : string := d.

Definition example_add_documents (docs : list string) : option string := None.

(** ** Properties of the string tests *)

Lemma append_nil_l (s : string) : "" +:+ s = s.
Proof. reflexivity. Qed.

Lemma append_cons_l (c : ascii) (s t : string) :
  String c s +:+ t = String c (s +:+ t).
Proof. reflexivity. Qed.

Lemma append_nil_r (s : string) : s +:+ "" = s.
Proof.
  induction s as [|c s IH]; [reflexivity|].
  rewrite append_cons_l. now rewrite IH.
Qed.

Lemma append_assoc (s t u : string) : (s +:+ t) +:+ u = s +:+ t +:+ u.
Proof.
  induction s as [|c s IH]; [reflexivity|].
  rewrite !append_cons_l. now rewrite IH.
Qed.

Lemma startswith_spec (s m : string) :
  PyStr.startswith s m = true <-> exists r, s = m +:+ r.
Proof.
  revert s. induction m as [|c m IH]; intros s; simpl.
  - split; [intros _; exists s; reflexivity | reflexivity].
  - destruct s as [|d s].
    + split; [discriminate | intros [r Hr]; discriminate].
    + rewrite andb_true_iff, bool_decide_eq_true, IH. split.
      * intros [-> [r ->]]. exists r. reflexivity.
      * intros [r Hr]. rewrite append_cons_l in Hr.
        injection Hr as -> ->. split; [reflexivity | exists r; reflexivity].
Qed.

Lemma endswith_spec (s m : string) :
  PyStr.endswith s m = true <-> exists l, s = l +:+ m.
Proof.
  induction s as [|c s IH]; simpl.
  - rewrite orb_false_r, bool_decide_eq_true. split.
    + intros <-. exists "". reflexivity.
    + intros [l Hl]. destruct l; [exact Hl | discriminate].
  - rewrite orb_true_iff, bool_decide_eq_true, IH. split.
    + intros [<- | [l ->]].
      * exists "". reflexivity.
      * exists (String c l). reflexivity.
    + intros [l Hl]. destruct l as [|d l].
      * left. exact Hl.
      * right. rewrite append_cons_l in Hl. injection Hl as _ ->.
        exists l. reflexivity.
Qed.

Lemma contains_spec (s m : string) :
  PyStr.contains s m = true <-> exists l r, s = l +:+ m +:+ r.
Proof.
  induction s as [|c s IH]; simpl.
  - rewrite orb_false_r, startswith_spec. split.
    + intros [r Hr]. exists "", r. exact Hr.
    + intros (l & r & Hlr). destruct l; [exists r; exact Hlr | discriminate].
  - rewrite orb_true_iff, startswith_spec, IH. split.
    + intros [[r Hr] | (l & r & ->)].
      * exists "", r. exact Hr.
      * exists (String c l), r. reflexivity.
    + intros (l & r & Hlr). destruct l as [|d l].
      * left. exists r. exact Hlr.
      * right. rewrite append_cons_l in Hlr. injection Hlr as _ ->.
        exists l, r. reflexivity.
Qed.

(** ** Properties of the predicate *)

Lemma operations_equals (a b : string) :
  operations a b !! "equals" = Some (bool_decide (a = b)).
Proof.
  unfold operations.
  rewrite !lookup_insert_ne by discriminate. apply lookup_insert_eq.
Qed.

Lemma operations_not_equals (a b : string) :
  operations a b !! "not equals" = Some (negb (bool_decide (a = b))).
Proof.
  unfold operations.
  rewrite !lookup_insert_ne by discriminate. apply lookup_insert_eq.
Qed.

Lemma operations_contains (a b : string) :
  operations a b !! "contains" = Some (PyStr.contains a b).
Proof.
  unfold operations.
  rewrite !lookup_insert_ne by discriminate. apply lookup_insert_eq.
Qed.

Lemma operations_starts_with (a b : string) :
  operations a b !! "starts with" = Some (PyStr.startswith a b).
Proof.
  unfold operations.
  rewrite !lookup_insert_ne by discriminate. apply lookup_insert_eq.
Qed.

Lemma operations_ends_with (a b : string) :
  operations a b !! "ends with" = Some (PyStr.endswith a b).
Proof. unfold operations. apply lookup_insert_eq. Qed.

Lemma evaluate_condition_lookup (lower : string -> string)
    (a b op : string) (cs : bool) :
  evaluate_condition lower a b op cs =
  default false (operations (if cs then a else lower a)
                            (if cs then b else lower b) !! op).
Proof. destruct cs; reflexivity. Qed.

Lemma operations_unrecognized (a b op : string) :
  recognized op = false -> operations a b !! op = None.
Proof.
  intros H. apply bool_decide_eq_false in H.
  unfold operator_options in H. rewrite !not_elem_of_cons in H.
  destruct H as (H1 & H2 & H3 & H4 & H5 & _).
  unfold operations.
  rewrite !lookup_insert_ne by (intros E; symmetry in E; contradiction).
  apply lookup_empty.
Qed.

(** C3. [evaluate_condition] follows the operator table: with [a'] and
    [b'] the operands as given when [case_sensitive] holds and their
    lower-cased forms otherwise, "equals" holds iff [a' = b'], "not
    equals" iff [a' <> b'], "contains" iff [b'] occurs inside [a'],
    "starts with" iff [a'] begins with [b'], "ends with" iff [a'] ends
    with [b'].  On ASCII text, "Foo" equals "foo" only when the
    comparison is case-insensitive, and "hello world" contains "WORLD"
    case-insensitively. *)
Theorem evaluate_condition_table (lower : string -> string)
    (input_text match_text : string) (case_sensitive : bool) :
  let a' := if case_sensitive then input_text else lower input_text in
  let b' := if case_sensitive then match_text else lower match_text in
  (evaluate_condition lower input_text match_text "equals" case_sensitive = true
     <-> a' = b') /\
  (evaluate_condition lower input_text match_text "not equals" case_sensitive = true
     <-> a' <> b') /\
  (evaluate_condition lower input_text match_text "contains" case_sensitive = true
     <-> exists l r, a' = l +:+ b' +:+ r) /\
  (evaluate_condition lower input_text match_text "starts with" case_sensitive = true
     <-> exists r, a' = b' +:+ r) /\
  (evaluate_condition lower input_text match_text "ends with" case_sensitive = true
     <-> exists l, a' = l +:+ b') /\
  evaluate_condition PyStr.ascii_lower "Foo" "foo" "equals" true = false /\
  evaluate_condition PyStr.ascii_lower "Foo" "foo" "equals" false = true /\
  evaluate_condition PyStr.ascii_lower "hello world" "WORLD" "contains" false = true.
Proof.
  intros a' b'. rewrite !evaluate_condition_lookup. fold a' b'.
  rewrite operations_equals, operations_not_equals, operations_contains,
    operations_starts_with, operations_ends_with. simpl.
  repeat split; try (vm_compute; reflexivity).
  - apply bool_decide_eq_true.
  - apply bool_decide_eq_true.
  - intros H. apply negb_true_iff, bool_decide_eq_false in H. exact H.
  - intros H. apply negb_true_iff, bool_decide_eq_false. exact H.
  - apply contains_spec.
  - apply contains_spec.
  - apply startswith_spec.
  - apply startswith_spec.
  - apply endswith_spec.
  - apply endswith_spec.
Qed.

(** C5. An operator outside the five recognized names makes
    [evaluate_condition] answer [false], whatever the texts and the
    case flag; the function is total, so nothing is raised. *)
Theorem evaluate_condition_unrecognized (lower : string -> string)
    (input_text match_text operator : string) (case_sensitive : bool) :
  recognized operator = false ->
  evaluate_condition lower input_text match_text operator case_sensitive = false.
Proof.
  intros H. rewrite evaluate_condition_lookup.
  now rewrite operations_unrecognized.
Qed.

(** C6. "equals" is the negation of "not equals" on the same operands
    and case flag. *)
Theorem equals_negates_not_equals (lower : string -> string)
    (a b : string) (case_sensitive : bool) :
  evaluate_condition lower a b "equals" case_sensitive =
  negb (evaluate_condition lower a b "not equals" case_sensitive).
Proof.
  rewrite !evaluate_condition_lookup.
  rewrite operations_equals, operations_not_equals. simpl.
  now rewrite negb_involutive.
Qed.

(** C7. Every text contains the empty text, starts with itself and
    ends with itself, under either case flag; lower-casing the empty
    text gives the empty text. *)
Theorem reflexive_tests (lower : string -> string) (a : string)
    (case_sensitive : bool) :
  lower "" = "" ->
  evaluate_condition lower a "" "contains" case_sensitive = true /\
  evaluate_condition lower a a "starts with" case_sensitive = true /\
  evaluate_condition lower a a "ends with" case_sensitive = true.
Proof.
  intros Hnil. rewrite !evaluate_condition_lookup.
  rewrite operations_contains, operations_starts_with, operations_ends_with.
  simpl. repeat split.
  - apply contains_spec. exists "".
    destruct case_sensitive; [|rewrite Hnil]; eexists; reflexivity.
  - apply startswith_spec. exists "". symmetry. apply append_nil_r.
  - apply endswith_spec. exists "". reflexivity.
Qed.

(** ** Properties of the guard and the accessors *)

Section GuardFacts.

Context {Message : Type}.
Variable lower : string -> string.

Implicit Types (st : State Message) (c : Self Message) (a : Accessor).

Lemma same_config_refl c : same_config c c.
Proof. reflexivity. Qed.

Lemma same_config_trans c1 c2 c3 :
  same_config c1 c2 -> same_config c2 c3 -> same_config c1 c3.
Proof. unfold same_config. congruence. Qed.

Lemma same_config_flag b c : same_config c (set_iteration_updated b c).
Proof. reflexivity. Qed.

Lemma same_config_status m c : same_config c (set_status m c).
Proof. reflexivity. Qed.

Lemma same_config_fields c c' :
  same_config c c' ->
  _id c = _id c' /\ input_text c = input_text c' /\
  match_text c = match_text c' /\ operator c = operator c' /\
  case_sensitive c = case_sensitive c' /\ message c = message c' /\
  max_iterations c = max_iterations c' /\ default_route c = default_route c'.
Proof.
  destruct c, c'. unfold same_config, set_status, set_iteration_updated.
  simpl. intros H. injection H as -> -> -> -> -> -> -> ->. repeat split.
Qed.

Lemma same_config_result c c' :
  same_config c c' -> result_of lower c = result_of lower c'.
Proof.
  intros H. apply same_config_fields in H.
  destruct H as (_ & H1 & H2 & H3 & H4 & _).
  unfold result_of. now rewrite H1, H2, H3, H4.
Qed.

Lemma same_config_response c c' a :
  same_config c c' -> response lower c a = response lower c' a.
Proof.
  intros H. unfold response, taken_edge.
  rewrite (same_config_result _ _ H).
  apply same_config_fields in H. destruct H as (_ & _ & _ & _ & _ & -> & _).
  reflexivity.
Qed.

Lemma iterate_and_stop_once_done st route :
  iteration_updated (self st) = true ->
  iterate_and_stop_once route st = Ok tt st.
Proof.
  intros H. unfold iterate_and_stop_once, bind, gets. now rewrite H.
Qed.

Lemma iterate_and_stop_once_fresh st route :
  iteration_updated (self st) = false ->
  counter_ok st = true ->
  iterate_and_stop_once route st =
  Ok tt (mkState (set_iteration_updated true (self st))
           (mkGraph
              (<[iteration_key (self st) := PyInt (iteration_count st + 1)]>
                 (context (graph st)))
              (stop_signals (graph st) ++
               [stopped_route (max_iterations (self st))
                  (default_route (self st)) (iteration_count st + 1) route]))).
Proof.
  intros Hflag Hok.
  unfold counter_ok in Hok. unfold iteration_count.
  unfold iterate_and_stop_once, bind, gets, ctx_get.
  rewrite Hflag. simpl. unfold iteration_key in *.
  destruct (context (graph st) !! (_id (self st) +:+ "_iteration"))
    as [[z|s|]|]; try discriminate; reflexivity.
Qed.

(** With text or [None] in the counter slot the increment raises: the
    error branch of the model is a real one. *)
Lemma iterate_and_stop_once_type_error st route s :
  iteration_updated (self st) = false ->
  context (graph st) !! iteration_key (self st) = Some (PyStr s) ->
  iterate_and_stop_once route st = Raise TypeError.
Proof.
  intros Hflag Hs.
  unfold iterate_and_stop_once, bind, gets, ctx_get.
  rewrite Hflag. simpl. unfold iteration_key in Hs. now rewrite Hs.
Qed.

End GuardFacts.

Section AccessorFacts.

Context {Message : Type}.
Variable lower : string -> string.

Implicit Types (st : State Message) (c : Self Message) (a : Accessor).

Lemma call_done a st :
  iteration_updated (self st) = true ->
  exists c', same_config (self st) c' /\ iteration_updated c' = true /\
    call lower a st = Ok (response lower (self st) a) (mkState c' (graph st)).
Proof.
  intros Hflag. destruct st as [c g]. simpl in *.
  destruct a; unfold call, true_response, false_response, evaluate_self,
    response, taken_edge, bind, gets, modify_self, ret; simpl;
    fold (result_of lower c); destruct (result_of lower c); simpl;
    rewrite iterate_and_stop_once_done by exact Hflag;
    (eexists; split; [|split]; [ | | reflexivity];
     [reflexivity | exact Hflag]).
Qed.

Lemma call_fresh a st :
  iteration_updated (self st) = false ->
  counter_ok st = true ->
  exists c', same_config (self st) c' /\ iteration_updated c' = true /\
    call lower a st =
    Ok (response lower (self st) a) (mkState c' (guarded_graph lower st)).
Proof.
  intros Hflag Hok. destruct st as [c g]. simpl in *.
  destruct a; unfold call, true_response, false_response, evaluate_self,
    response, guarded_graph, untaken_edge, taken_edge, bind, gets,
    modify_self, ret; simpl;
    fold (result_of lower c); destruct (result_of lower c); simpl;
    rewrite iterate_and_stop_once_fresh by assumption; simpl;
    (eexists; split; [|split]; [ | | reflexivity]; reflexivity).
Qed.

Lemma call_all_done l st :
  iteration_updated (self st) = true ->
  exists c', same_config (self st) c' /\ iteration_updated c' = true /\
    call_all lower l st =
    Ok (map (response lower (self st)) l) (mkState c' (graph st)).
Proof.
  revert st. induction l as [|a l IH]; intros st Hflag.
  - exists (self st). repeat split; [exact Hflag|]. now destruct st.
  - destruct (call_done a st Hflag) as (c1 & Hc1 & Hf1 & E1).
    destruct (IH (mkState c1 (graph st)) Hf1) as (c2 & Hc2 & Hf2 & E2).
    simpl in Hc2, E2. exists c2. split; [|split].
    + exact (same_config_trans _ _ _ Hc1 Hc2).
    + exact Hf2.
    + simpl. unfold bind. rewrite E1, E2. unfold ret. do 2 f_equal.
      apply map_ext. intros b. symmetry.
      now apply same_config_response.
Qed.

Lemma cycle_spec a l st :
  counter_ok st = true ->
  exists c', same_config (self st) c' /\ iteration_updated c' = true /\
    cycle lower (a :: l) st =
    Ok (map (response lower (self st)) (a :: l))
       (mkState c' (guarded_graph lower st)).
Proof.
  intros Hok.
  set (st0 := mkState (set_iteration_updated false (self st)) (graph st)).
  destruct (call_fresh a st0 eq_refl Hok) as (c1 & Hc1 & Hf1 & E1).
  destruct (call_all_done l (mkState c1 (guarded_graph lower st0)) Hf1)
    as (c2 & Hc2 & Hf2 & E2).
  simpl in Hc1, Hc2, E2. exists c2. split; [|split].
  - exact (same_config_trans _ _ _ Hc1 Hc2).
  - exact Hf2.
  - unfold cycle, _pre_run_setup, bind, modify_self. fold st0. simpl.
    unfold bind. rewrite E1, E2. unfold ret. f_equal.
    change (self st0) with (set_iteration_updated false (self st)).
    rewrite <- (same_config_response lower _ _ a (same_config_flag false (self st))).
    f_equal. apply map_ext. intros b. symmetry.
    now apply same_config_response.
Qed.

Lemma cycle_nil st :
  cycle lower [] st =
  Ok [] (mkState (set_iteration_updated false (self st)) (graph st)).
Proof. reflexivity. Qed.

Lemma guarded_counter st c' :
  _id c' = _id (self st) ->
  iteration_count (mkState c' (guarded_graph lower st)) = iteration_count st + 1
  /\ counter_ok (mkState c' (guarded_graph lower st)) = true.
Proof.
  intros Hid. unfold iteration_count, counter_ok, iteration_key. simpl.
  unfold iteration_key. rewrite Hid, lookup_insert_eq. split; reflexivity.
Qed.

Lemma run_spec visits st :
  counter_ok st = true ->
  exists st', run lower visits st = Ok tt st' /\
    same_instance (self st) (self st') /\
    counter_ok st' = true /\
    iteration_count st' = iteration_count st + Z.of_nat (length visits) /\
    stop_signals (graph st') =
    stop_signals (graph st) ++
    signals_of lower (max_iterations (self st)) (default_route (self st))
               (iteration_count st) visits.
Proof.
  revert st. induction visits as [|[[i a] l] rest IH]; intros st Hok.
  - exists st. simpl. repeat split; try assumption.
    + lia.
    + now rewrite app_nil_r.
  - set (st1 := mkState (set_inputs i (self st)) (graph st)).
    destruct (cycle_spec a l st1 Hok) as (c2 & Hc2 & _ & E2).
    apply same_config_fields in Hc2.
    destruct Hc2 as (Hid & _ & _ & _ & _ & _ & Hmax & Hdef). simpl in Hid, Hmax, Hdef.
    destruct (guarded_counter st1 c2 (eq_sym Hid)) as [Hcount Hok2].
    destruct (IH _ Hok2) as (st' & E' & (Hi1 & Hi2 & Hi3) & Hok' & Hc' & Hs').
    simpl in Hi1, Hi2, Hi3.
    exists st'. split; [|split; [|split; [|split]]].
    + simpl. unfold bind, modify_self. fold st1. rewrite E2. exact E'.
    + unfold same_instance. rewrite Hid, Hmax, Hdef. repeat split; assumption.
    + exact Hok'.
    + rewrite Hc', Hcount. change (iteration_count st1) with (iteration_count st).
      simpl length. lia.
    + rewrite Hs', Hcount. simpl. rewrite <- Hmax, <- Hdef.
      rewrite <- app_assoc. reflexivity.
Qed.

End AccessorFacts.

(** ** The route decision *)

Section Decision.

Context {Message : Type}.
Variable lower : string -> string.

Implicit Types (st : State Message) (c : Self Message) (a : Accessor).

Lemma alternate_untaken c :
  alternate_route (untaken_edge lower c) = taken_edge lower c.
Proof. unfold untaken_edge, taken_edge. now destruct (result_of lower c). Qed.

Lemma response_true c :
  returns_message (response lower c TrueResponse) = result_of lower c.
Proof. unfold response, taken_edge. now destruct (result_of lower c). Qed.

Lemma response_false c :
  returns_message (response lower c FalseResponse) = negb (result_of lower c).
Proof. unfold response, taken_edge. now destruct (result_of lower c). Qed.

Lemma guarded_signals st :
  stop_signals (guarded_graph lower st) =
  stop_signals (graph st) ++
  [if (max_iterations (self st) <=? iteration_count st + 1)
      && bool_decide (untaken_edge lower (self st) = default_route (self st))
   then taken_edge lower (self st)
   else untaken_edge lower (self st)].
Proof.
  unfold guarded_graph, stopped_route. simpl.
  now rewrite alternate_untaken.
Qed.

(** C1, as the code has it.  In a cycle that starts with the counter
    slot empty or holding an integer, every accessor call returns: the
    True accessor hands back the message exactly when the predicate
    holds, the False accessor exactly when it does not, and one stop
    signal is sent.  The stopped edge is the one that did not receive
    the message, unless the raised counter has reached [max_iterations]
    and that edge is the [default_route]: then the edge that received
    the message is the one stopped. *)
Theorem route_decision st a (l : list Accessor) :
  counter_ok st = true ->
  exists st',
    cycle lower (a :: l) st =
      Ok (map (response lower (self st)) (a :: l)) st' /\
    returns_message (response lower (self st) TrueResponse) =
      result_of lower (self st) /\
    returns_message (response lower (self st) FalseResponse) =
      negb (result_of lower (self st)) /\
    stop_signals (graph st') =
      stop_signals (graph st) ++
      [if (max_iterations (self st) <=? iteration_count st + 1)
          && bool_decide (untaken_edge lower (self st) = default_route (self st))
       then taken_edge lower (self st)
       else untaken_edge lower (self st)].
Proof.
  intros Hok. destruct (cycle_spec lower a l st Hok) as (c' & _ & _ & E).
  eexists. split; [exact E|]. split; [apply response_true|].
  split; [apply response_false|]. apply guarded_signals.
Qed.

End Decision.

(** C1, as the claim words it, fails on [example_state]: the predicate
    holds, the True accessor returns the message, and the cap of one
    visit makes the guard stop the True edge itself. *)
Lemma route_decision_counterexample :
  ~ other_edge_stopped PyStr.ascii_lower example_state.
Proof.
  intros (r_true & r_false & st' & e & Hc & _ & Hs & _ & Ht & _).
  vm_compute in Hc. injection Hc as Hr1 Hr2 Hst. subst r_true r_false st'.
  simpl in Hs. injection Hs as He. subst e.
  discriminate (Ht eq_refl).
Qed.

Lemma route_decision_witness :
  counter_ok example_state = true /\
  exists st',
    cycle PyStr.ascii_lower [TrueResponse; FalseResponse] example_state =
      Ok (map (response PyStr.ascii_lower (self example_state))
              [TrueResponse; FalseResponse]) st' /\
    returns_message (response PyStr.ascii_lower (self example_state) TrueResponse) =
      result_of PyStr.ascii_lower (self example_state) /\
    returns_message (response PyStr.ascii_lower (self example_state) FalseResponse) =
      negb (result_of PyStr.ascii_lower (self example_state)) /\
    stop_signals (graph st') =
      stop_signals (graph example_state) ++
      [if (max_iterations (self example_state) <=? iteration_count example_state + 1)
          && bool_decide (untaken_edge PyStr.ascii_lower (self example_state)
                          = default_route (self example_state))
       then taken_edge PyStr.ascii_lower (self example_state)
       else untaken_edge PyStr.ascii_lower (self example_state)].
Proof.
  split; [reflexivity|].
  apply (route_decision PyStr.ascii_lower example_state TrueResponse
           [FalseResponse]).
  reflexivity.
Defined.

(** ** The counter across a cycle and across a run *)

Section Counter.

Context {Message : Type}.
Variable lower : string -> string.

Implicit Types (st : State Message) (c : Self Message) (a : Accessor).


Lemma signals_of_length (m : Z) (d : string) (count : Z)
    (xs : list (Inputs Message * Accessor * list Accessor)) :
  length (signals_of lower m d count xs) = length xs.
Proof.
  revert count. induction xs as [|[[i a] l] xs IH]; intros count; simpl.
  - reflexivity.
  - now rewrite IH.
Qed.



(** C4. In one cycle, [_pre_run_setup] followed by one or more accessor
    calls in any order, the counter of the instance goes up by exactly
    one: the first call stores the raised value and the flag keeps the
    later calls from raising it again. *)
Theorem counter_incremented_once st a (l : list Accessor) :
  counter_ok st = true ->
  exists rs st',
    cycle lower (a :: l) st = Ok rs st' /\
    context (graph st') !! iteration_key (self st) =
      Some (PyInt (iteration_count st + 1)) /\
    iteration_count st' = iteration_count st + 1.
Proof.
  intros Hok. destruct (cycle_spec lower a l st Hok) as (c' & Hc' & _ & E).
  apply same_config_fields in Hc'. destruct Hc' as (Hid & _).
  eexists. eexists. split; [exact E|]. split.
  - simpl. apply lookup_insert_eq.
  - apply (guarded_counter lower st c'). now symmetry.
Qed.

(** C10. Whichever accessor the host evaluates first in a cycle, and
    whether it evaluates one or several, the outcome is the same one
    guarded update of the starting graph: the counter stored one
    higher and one stop signal appended, for the route that both
    accessors hand to [iterate_and_stop_once].  The first accessor call
    of the cycle already leaves the graph in that state, so every
    later call of the cycle changes nothing in it. *)
Theorem accessor_order_irrelevant st a (l : list Accessor) b (l' : list Accessor) :
  counter_ok st = true ->
  exists r st0 rs rs' st1 st2,
    (_pre_run_setup ;;; call lower a) st = Ok r st0 /\
    graph st0 = guarded_graph lower st /\
    cycle lower (a :: l) st = Ok rs st1 /\
    cycle lower (b :: l') st = Ok rs' st2 /\
    graph st1 = guarded_graph lower st /\
    graph st2 = guarded_graph lower st /\
    iteration_count st1 = iteration_count st + 1 /\
    iteration_count st2 = iteration_count st + 1.
Proof.
  intros Hok.
  set (st_reset := mkState (set_iteration_updated false (self st)) (graph st)).
  destruct (call_fresh lower a st_reset eq_refl Hok) as (c0 & _ & _ & E0).
  destruct (cycle_spec lower a l st Hok) as (c1 & H1 & _ & E1).
  destruct (cycle_spec lower b l' st Hok) as (c2 & H2 & _ & E2).
  apply same_config_fields in H1, H2.
  destruct H1 as (Hid1 & _). destruct H2 as (Hid2 & _).
  do 6 eexists.
  split; [unfold bind, _pre_run_setup, modify_self; fold st_reset; exact E0|].
  split; [reflexivity|].
  split; [exact E1|]. split; [exact E2|].
  split; [reflexivity|]. split; [reflexivity|]. split.
  - apply (guarded_counter lower st c1). now symmetry.
  - apply (guarded_counter lower st c2). now symmetry.
Qed.

End Counter.

(** ** Frame and totality *)

Section Frame.

Context {Message : Type}.
Variable lower : string -> string.

Implicit Types (st : State Message) (c : Self Message) (a : Accessor).

Lemma set_iteration_updated_id c :
  c = set_iteration_updated (iteration_updated c) c.
Proof. now destruct c. Qed.

Lemma guarded_context_frame st (k : string) :
  k <> iteration_key (self st) ->
  context (guarded_graph lower st) !! k = context (graph st) !! k.
Proof. intros Hk. simpl. now apply lookup_insert_ne. Qed.

Lemma iterate_and_stop_once_returns st route :
  counter_ok st = true ->
  exists st' sent,
    iterate_and_stop_once route st = Ok tt st' /\
    (forall k, k <> iteration_key (self st) ->
               context (graph st') !! k = context (graph st) !! k) /\
    stop_signals (graph st') = stop_signals (graph st) ++ sent /\
    (length sent <= 1)%nat /\
    self st' = set_iteration_updated (iteration_updated (self st')) (self st).
Proof.
  intros Hok. destruct (iteration_updated (self st)) eqn:Hflag.
  - exists st, []. split; [now apply iterate_and_stop_once_done|].
    split; [reflexivity|]. split; [now rewrite app_nil_r|].
    split; [simpl; lia|]. apply set_iteration_updated_id.
  - eexists. eexists.
    split; [now apply iterate_and_stop_once_fresh|]. simpl.
    split; [intros k Hk; now apply lookup_insert_ne|].
    split; [reflexivity|]. split; [simpl; lia|]. reflexivity.
Qed.

Lemma call_returns a st :
  counter_ok st = true ->
  exists r st' sent,
    call lower a st = Ok r st' /\
    (forall k, k <> iteration_key (self st) ->
               context (graph st') !! k = context (graph st) !! k) /\
    stop_signals (graph st') = stop_signals (graph st) ++ sent /\
    (length sent <= 1)%nat /\
    same_config (self st) (self st').
Proof.
  intros Hok. destruct (iteration_updated (self st)) eqn:Hflag.
  - destruct (call_done lower a st Hflag) as (c' & Hc' & _ & E).
    eexists. eexists. exists []. split; [exact E|]. simpl.
    split; [reflexivity|]. split; [now rewrite app_nil_r|].
    split; [lia | exact Hc'].
  - destruct (call_fresh lower a st Hflag Hok) as (c' & Hc' & _ & E).
    eexists. eexists. eexists. split; [exact E|].
    split; [intros k Hk; now apply guarded_context_frame|].
    split; [reflexivity|]. split; [simpl; lia | exact Hc'].
Qed.

(** C8. One call of [iterate_and_stop_once] changes the run context at
    the key "<id>_iteration" alone, sends at most one stop signal, and
    leaves every attribute of the component but the guard flag as it
    was.  A whole accessor call has the same effect on the graph and
    changes the guard flag and the status only. *)
Theorem evaluation_frame st route a :
  counter_ok st = true ->
  (exists st' sent,
     iterate_and_stop_once route st = Ok tt st' /\
     (forall k, k <> iteration_key (self st) ->
                context (graph st') !! k = context (graph st) !! k) /\
     stop_signals (graph st') = stop_signals (graph st) ++ sent /\
     (length sent <= 1)%nat /\
     self st' = set_iteration_updated (iteration_updated (self st')) (self st))
  /\
  (exists r st' sent,
     call lower a st = Ok r st' /\
     (forall k, k <> iteration_key (self st) ->
                context (graph st') !! k = context (graph st) !! k) /\
     stop_signals (graph st') = stop_signals (graph st) ++ sent /\
     (length sent <= 1)%nat /\
     same_config (self st) (self st')).
Proof.
  intros Hok. split.
  - now apply iterate_and_stop_once_returns.
  - now apply call_returns.
Qed.

(** C9. Given a counter slot that is empty or holds an integer, none
    of the decision logic raises: the predicate call returns its
    boolean and leaves the state alone, and [iterate_and_stop_once],
    [true_response] and [false_response] all return, for every
    operator text, every cap (zero and negative ones too) and every
    stored count. *)
Theorem decision_logic_total st route :
  counter_ok st = true ->
  evaluate_self lower st = Ok (result_of lower (self st)) st /\
  (exists st', iterate_and_stop_once route st = Ok tt st') /\
  (exists r st', true_response lower st = Ok r st') /\
  (exists r st', false_response lower st = Ok r st').
Proof.
  intros Hok. split; [reflexivity|]. split; [|split].
  - destruct (iterate_and_stop_once_returns st route Hok) as (st' & _ & E & _).
    now exists st'.
  - destruct (call_returns TrueResponse st Hok) as (r & st' & _ & E & _).
    now exists r, st'.
  - destruct (call_returns FalseResponse st Hok) as (r & st' & _ & E & _).
    now exists r, st'.
Qed.

End Frame.

(** ** The statements at the concrete instance *)

Lemma evaluate_condition_unrecognized_witness :
  recognized "matches" = false /\
  evaluate_condition PyStr.ascii_lower "abc" "abc" "matches" true = false.
Proof.
  split; [reflexivity|].
  apply (evaluate_condition_unrecognized PyStr.ascii_lower "abc" "abc"
           "matches" true).
  reflexivity.
Defined.

Lemma reflexive_tests_witness :
  PyStr.ascii_lower "" = "" /\
  evaluate_condition PyStr.ascii_lower "Abc" "" "contains" false = true /\
  evaluate_condition PyStr.ascii_lower "Abc" "Abc" "starts with" false = true /\
  evaluate_condition PyStr.ascii_lower "Abc" "Abc" "ends with" false = true.
Proof.
  split; [reflexivity|].
  apply (reflexive_tests PyStr.ascii_lower "Abc" false).
  reflexivity.
Defined.


Lemma counter_incremented_once_witness :
  counter_ok example_state = true /\
  exists rs st',
    cycle PyStr.ascii_lower [FalseResponse; TrueResponse; FalseResponse]
          example_state = Ok rs st' /\
    context (graph st') !! iteration_key (self example_state) =
      Some (PyInt (iteration_count example_state + 1)) /\
    iteration_count st' = iteration_count example_state + 1.
Proof.
  split; [reflexivity|].
  apply (counter_incremented_once PyStr.ascii_lower example_state
           FalseResponse [TrueResponse; FalseResponse]).
  reflexivity.
Defined.

Lemma accessor_order_irrelevant_witness :
  counter_ok example_state = true /\
  exists r st0 rs rs' st1 st2,
    (_pre_run_setup ;;; call PyStr.ascii_lower TrueResponse) example_state
      = Ok r st0 /\
    graph st0 = guarded_graph PyStr.ascii_lower example_state /\
    cycle PyStr.ascii_lower [TrueResponse; FalseResponse] example_state
      = Ok rs st1 /\
    cycle PyStr.ascii_lower [FalseResponse] example_state = Ok rs' st2 /\
    graph st1 = guarded_graph PyStr.ascii_lower example_state /\
    graph st2 = guarded_graph PyStr.ascii_lower example_state /\
    iteration_count st1 = iteration_count example_state + 1 /\
    iteration_count st2 = iteration_count example_state + 1.
Proof.
  split; [reflexivity|].
  apply (accessor_order_irrelevant PyStr.ascii_lower example_state
           TrueResponse [FalseResponse] FalseResponse []).
  reflexivity.
Defined.

Lemma evaluation_frame_witness :
  counter_ok example_state = true /\
  (exists st' sent,
     iterate_and_stop_once "false_result" example_state = Ok tt st' /\
     (forall k, k <> iteration_key (self example_state) ->
                context (graph st') !! k = context (graph example_state) !! k) /\
     stop_signals (graph st') = stop_signals (graph example_state) ++ sent /\
     (length sent <= 1)%nat /\
     self st' =
       set_iteration_updated (iteration_updated (self st')) (self example_state))
  /\
  (exists r st' sent,
     call PyStr.ascii_lower TrueResponse example_state = Ok r st' /\
     (forall k, k <> iteration_key (self example_state) ->
                context (graph st') !! k = context (graph example_state) !! k) /\
     stop_signals (graph st') = stop_signals (graph example_state) ++ sent /\
     (length sent <= 1)%nat /\
     same_config (self example_state) (self st')).
Proof.
  split; [reflexivity|].
  apply (evaluation_frame PyStr.ascii_lower example_state "false_result"
           TrueResponse).
  reflexivity.
Defined.

Lemma decision_logic_total_witness :
  counter_ok example_state = true /\
  evaluate_self PyStr.ascii_lower example_state =
    Ok (result_of PyStr.ascii_lower (self example_state)) example_state /\
  (exists st', iterate_and_stop_once "true_result" example_state = Ok tt st') /\
  (exists r st', true_response PyStr.ascii_lower example_state = Ok r st') /\
  (exists r st', false_response PyStr.ascii_lower example_state = Ok r st').
Proof.
  split; [reflexivity|].
  apply (decision_logic_total PyStr.ascii_lower example_state "true_result").
  reflexivity.
Defined.

(** ** Scenarios *)

(** "abc" against "xyz" under "equals": no match, whatever the case
    flag. *)
Example scenario_no_match :
  evaluate_condition PyStr.ascii_lower "abc" "xyz" "equals" true = false /\
  evaluate_condition PyStr.ascii_lower "abc" "xyz" "equals" false = false.
Proof. split; reflexivity. Qed.

(** The error branch is live: text stored under the counter key makes
    the first accessor call of a cycle raise. *)
Example scenario_type_error :
  true_response PyStr.ascii_lower
    (mkState example_self
             (mkGraph {["router-1_iteration" := PyStr "three"]} []))
  = Raise TypeError.
Proof. reflexivity. Qed.

(** With a cap of three and the False edge as default, three visits
    whose predicate holds stop the False edge twice and then the True
    edge. *)
Example scenario_cap_of_three :
  exists st',
    run PyStr.ascii_lower [example_visit; example_visit; example_visit]
        (mkState (mkSelf "router-1" "" "" "equals" false "payload" 3
                         "false_result" false None)
                 (mkGraph ∅ []))
    = Ok tt st' /\
    stop_signals (graph st') = ["false_result"; "false_result"; "true_result"] /\
    iteration_count st' = 3.
Proof. eexists. split; [vm_compute; reflexivity|]. split; reflexivity. Qed.

(** ** Further properties of the router *)

Section RouterMore.

Context {Message : Type}.
Variable lower : string -> string.

Implicit Types (st : State Message) (c : Self Message) (a : Accessor).

Lemma iterate_and_stop_once_raises st route :
  iteration_updated (self st) = false ->
  counter_ok st = false ->
  iterate_and_stop_once route st = Raise TypeError.
Proof.
  intros Hflag Hbad. unfold counter_ok, iteration_key in Hbad.
  unfold iterate_and_stop_once, bind, gets, ctx_get.
  rewrite Hflag. simpl.
  destruct (context (graph st) !! (_id (self st) +:+ "_iteration"))
    as [[z|s|]|]; try discriminate; reflexivity.
Qed.

Lemma call_raises a st :
  iteration_updated (self st) = false ->
  counter_ok st = false ->
  call lower a st = Raise TypeError.
Proof.
  intros Hflag Hbad. destruct st as [c g]. simpl in *.
  destruct a; unfold call, true_response, false_response, evaluate_self,
    bind, gets, modify_self; simpl;
    destruct (evaluate_condition lower _ _ _ _); simpl;
    now rewrite iterate_and_stop_once_raises.
Qed.


(** X2. If [_pre_run_setup] is never called, only the first batch of
    accessor calls after construction acts: it raises the counter and
    sends its one stop signal, and a later batch of calls returns
    without touching the run context or sending anything. *)
Theorem single_update_without_reset st a (l l2 : list Accessor) :
  counter_ok st = true ->
  exists rs1 st1 rs2 st2,
    (__init__ ;;; call_all lower (a :: l)) st = Ok rs1 st1 /\
    call_all lower l2 st1 = Ok rs2 st2 /\
    graph st1 = guarded_graph lower st /\
    graph st2 = graph st1.
Proof.
  intros Hok.
  destruct (cycle_spec lower a l st Hok) as (c1 & _ & Hf1 & E1).
  destruct (call_all_done lower l2 (mkState c1 (guarded_graph lower st)) Hf1)
    as (c2 & _ & _ & E2).
  do 4 eexists. split; [exact E1|]. split; [exact E2|]. split; reflexivity.
Qed.

Lemma run_frame visits st (k : string) :
  counter_ok st = true ->
  k <> iteration_key (self st) ->
  exists st', run lower visits st = Ok tt st' /\
    context (graph st') !! k = context (graph st) !! k.
Proof.
  revert st. induction visits as [|[[i a] l] rest IH]; intros st Hok Hk.
  - exists st. split; reflexivity.
  - set (st1 := mkState (set_inputs i (self st)) (graph st)).
    destruct (cycle_spec lower a l st1 Hok) as (c2 & Hc2 & _ & E2).
    apply same_config_fields in Hc2. destruct Hc2 as (Hid & _).
    simpl in Hid.
    destruct (guarded_counter lower st1 c2 (eq_sym Hid)) as [_ Hok2].
    assert (Hk2 : k <> iteration_key
                         (self (mkState c2 (guarded_graph lower st1)))).
    { unfold iteration_key in *. simpl. now rewrite <- Hid. }
    destruct (IH _ Hok2 Hk2) as (st' & E' & Hctx).
    exists st'. split.
    + simpl. unfold bind, modify_self. fold st1. rewrite E2. exact E'.
    + rewrite Hctx. simpl. now apply lookup_insert_ne.
Qed.

(** X3. A run of [n] visits that starts with the counter slot empty or
    holding an integer returns, leaves the counter [n] higher, and
    leaves every other key of the run context as it found it. *)
Theorem run_counts_visits
    (visits : list (Inputs Message * Accessor * list Accessor)) st :
  counter_ok st = true ->
  exists st',
    run lower visits st = Ok tt st' /\
    iteration_count st' = iteration_count st + Z.of_nat (length visits) /\
    forall k, k <> iteration_key (self st) ->
              context (graph st') !! k = context (graph st) !! k.
Proof.
  intros Hok.
  destruct (run_spec lower visits st Hok) as (st' & E & _ & _ & Hc & _).
  exists st'. split; [exact E|]. split; [exact Hc|].
  intros k Hk. destruct (run_frame visits st k Hok Hk) as (st2 & E2 & Hctx).
  rewrite E in E2. injection E2 as <-. exact Hctx.
Qed.

Lemma signals_of_outputs (m : Z) (d : string) (count : Z)
    (visits : list (Inputs Message * Accessor * list Accessor)) :
  Forall (fun e => e = "true_result" \/ e = "false_result")
         (signals_of lower m d count visits).
Proof.
  revert count. induction visits as [|[[i a] l] rest IH]; intros count; simpl.
  - constructor.
  - constructor; [|apply IH].
    unfold stopped_route, alternate_route, untaken_of.
    destruct (evaluate_condition lower _ _ _ _);
      destruct (_ && _); simpl; auto.
Qed.

(** X4. A run sends exactly one stop signal per visit, and each of them
    names one of the component's two outputs, whatever text
    [default_route] holds. *)
Theorem run_signals_are_outputs
    (visits : list (Inputs Message * Accessor * list Accessor)) st :
  counter_ok st = true ->
  exists st' sent,
    run lower visits st = Ok tt st' /\
    stop_signals (graph st') = stop_signals (graph st) ++ sent /\
    length sent = length visits /\
    Forall (fun e => e = "true_result" \/ e = "false_result") sent.
Proof.
  intros Hok.
  destruct (run_spec lower visits st Hok) as (st' & E & _ & _ & _ & Hs).
  exists st'. eexists. split; [exact E|]. split; [exact Hs|].
  split; [apply signals_of_length | apply signals_of_outputs].
Qed.

(** X5. The reading "one edge receives the message, the other one is
    stopped" holds for a cycle exactly when the raised counter is still
    below [max_iterations] or the edge due to be stopped is not the
    [default_route]. *)
Theorem other_edge_stopped_iff st :
  counter_ok st = true ->
  (other_edge_stopped lower st <->
   iteration_count st + 1 < max_iterations (self st) \/
   untaken_edge lower (self st) <> default_route (self st)).
Proof.
  intros Hok.
  destruct (cycle_spec lower TrueResponse [FalseResponse] st Hok)
    as (c' & _ & _ & E).
  pose proof (guarded_signals lower st) as Hg.
  pose proof (response_true lower (self st)) as Rt.
  pose proof (response_false lower (self st)) as Rf.
  split.
  - intros (r_true & r_false & st' & e & Hc & _ & Hs & _ & Ht & Hf).
    rewrite E in Hc. simpl in Hc. injection Hc as <- <- <-.
    cbn [graph] in Hs. rewrite Hg in Hs. apply app_inv_head in Hs.
    injection Hs as He.
    destruct (Z.ltb_spec (iteration_count st + 1) (max_iterations (self st)))
      as [Hlt|Hge]; [now left|]. right. intros Hd.
    replace (max_iterations (self st) <=? iteration_count st + 1) with true
      in He by (symmetry; apply Z.leb_le; lia).
    rewrite bool_decide_true in He by exact Hd. simpl in He.
    unfold taken_edge in He.
    destruct (result_of lower (self st)); subst e.
    + specialize (Ht eq_refl). congruence.
    + specialize (Hf eq_refl). rewrite Rf in Hf. discriminate.
  - intros Hcond.
    exists (response lower (self st) TrueResponse),
           (response lower (self st) FalseResponse).
    eexists. exists (untaken_edge lower (self st)).
    split; [exact E|]. split; [now rewrite Rt, Rf, negb_involutive|].
    split.
    + cbn [graph]. rewrite Hg. do 2 f_equal.
      destruct Hcond as [Hlt|Hne].
      * replace (max_iterations (self st) <=? iteration_count st + 1)
          with false by (symmetry; apply Z.leb_gt; lia).
        reflexivity.
      * rewrite bool_decide_false by exact Hne. now rewrite andb_false_r.
    + rewrite Rt, Rf. unfold untaken_edge.
      destruct (result_of lower (self st)); repeat split;
        auto; discriminate.
Qed.

End RouterMore.

Section StatusFacts.

Context {Message : Type}.
Variable lower : string -> string.

Implicit Types (st : State Message) (c : Self Message) (a : Accessor).

Lemma iterate_and_stop_once_status st route u st' :
  iterate_and_stop_once route st = Ok u st' ->
  status (self st') = status (self st).
Proof.
  intros E. destruct (iteration_updated (self st)) eqn:Hflag.
  - rewrite iterate_and_stop_once_done in E by exact Hflag.
    now injection E as _ <-.
  - destruct (counter_ok st) eqn:Hok.
    + rewrite iterate_and_stop_once_fresh in E by assumption.
      now injection E as _ <-.
    + rewrite iterate_and_stop_once_raises in E by assumption. discriminate.
Qed.

Lemma call_status a st r st' :
  call lower a st = Ok r st' ->
  status (self st') =
  if bool_decide (output_name a = taken_edge lower (self st))
  then Some (message (self st)) else status (self st).
Proof.
  destruct st as [c g]. simpl.
  destruct a; unfold call, true_response, false_response, evaluate_self,
    taken_edge, bind, gets, modify_self, ret; simpl;
    fold (result_of lower c); destruct (result_of lower c); simpl;
    (destruct (iterate_and_stop_once _ _) as [u st1|e] eqn:E;
     [|discriminate]);
    apply iterate_and_stop_once_status in E; simpl in E;
    intros H; injection H as _ <-; exact E.
Qed.

Lemma call_same_config a st r st' :
  call lower a st = Ok r st' -> same_config (self st) (self st').
Proof.
  intros E. destruct (iteration_updated (self st)) eqn:Hflag.
  - destruct (call_done lower a st Hflag) as (c' & Hc' & _ & E').
    rewrite E' in E. now injection E as _ <-.
  - destruct (counter_ok st) eqn:Hok.
    + destruct (call_fresh lower a st Hflag Hok) as (c' & Hc' & _ & E').
      rewrite E' in E. now injection E as _ <-.
    + rewrite call_raises in E by assumption. discriminate.
Qed.

Lemma same_config_taken c c' :
  same_config c c' -> taken_edge lower c = taken_edge lower c'.
Proof.
  intros H. unfold taken_edge. now rewrite (same_config_result lower _ _ H).
Qed.

Lemma call_all_status (l : list Accessor) st rs st' :
  call_all lower l st = Ok rs st' ->
  status (self st') =
  if bool_decide (taken_edge lower (self st) ∈ map output_name l)
  then Some (message (self st)) else status (self st).
Proof.
  revert st rs. induction l as [|a l IH]; intros st rs E.
  - injection E as _ <-. rewrite bool_decide_false; [reflexivity|].
    apply not_elem_of_nil.
  - simpl in E. unfold bind in E.
    destruct (call lower a st) as [r st1|e] eqn:E1; [|discriminate].
    destruct (call_all lower l st1) as [rs1 st2|e] eqn:E2; [|discriminate].
    injection E as _ <-.
    pose proof (call_same_config _ _ _ _ E1) as Hc.
    rewrite (IH _ _ E2), (call_status _ _ _ _ E1).
    rewrite <- (same_config_taken _ _ Hc).
    apply same_config_fields in Hc.
    destruct Hc as (_ & _ & _ & _ & _ & <- & _).
    simpl map.
    destruct (decide (taken_edge lower (self st) ∈ map output_name l))
      as [Hin|Hnin].
    + rewrite !bool_decide_true; [reflexivity | now right | exact Hin].
    + rewrite (bool_decide_false _ Hnin).
      destruct (decide (output_name a = taken_edge lower (self st)))
        as [Heq|Hne].
      * rewrite !bool_decide_true;
          [reflexivity | apply elem_of_cons; left; now symmetry | exact Heq].
      * rewrite !bool_decide_false; [reflexivity | | exact Hne].
        intros [?|?]%elem_of_cons; [now apply Hne | now apply Hnin].
Qed.

(** X6. After a cycle the status holds the message if the accessor of
    the edge that receives the message was among those evaluated, and
    is what it was before otherwise; in particular it holds the message
    whenever both outputs are evaluated. *)
Theorem status_after_cycle st a (l : list Accessor) :
  counter_ok st = true ->
  exists rs st',
    cycle lower (a :: l) st = Ok rs st' /\
    status (self st') =
    if bool_decide (taken_edge lower (self st) ∈ map output_name (a :: l))
    then Some (message (self st)) else status (self st).
Proof.
  intros Hok. destruct (cycle_spec lower a l st Hok) as (c' & _ & _ & E).
  do 2 eexists. split; [exact E|].
  unfold cycle, _pre_run_setup, bind, modify_self in E.
  apply call_all_status in E. exact E.
Qed.

End StatusFacts.

(** ** Further properties of the predicate *)

Lemma string_length_append (s t : string) :
  String.length (s +:+ t) = (String.length s + String.length t)%nat.
Proof.
  induction s as [|c s IH]; [reflexivity|].
  rewrite append_cons_l. simpl. now rewrite IH.
Qed.

Lemma string_length_zero (s : string) : String.length s = 0%nat -> s = "".
Proof. now destruct s. Qed.

Lemma append_eq_self_r (s t : string) : s = s +:+ t -> t = "".
Proof.
  intros H. apply string_length_zero.
  apply (f_equal String.length) in H. rewrite string_length_append in H. lia.
Qed.

Lemma append_eq_self_l (s t : string) : s = t +:+ s -> t = "".
Proof.
  intros H. apply string_length_zero.
  apply (f_equal String.length) in H. rewrite string_length_append in H. lia.
Qed.

Section PredicateMore.

Variable lower : string -> string.

(** X7. When "equals" holds, so do "contains", "starts with" and
    "ends with", on the same texts and case flag. *)
Theorem equals_implies_the_others (a b : string) (cs : bool) :
  evaluate_condition lower a b "equals" cs = true ->
  evaluate_condition lower a b "contains" cs = true /\
  evaluate_condition lower a b "starts with" cs = true /\
  evaluate_condition lower a b "ends with" cs = true.
Proof.
  rewrite !evaluate_condition_lookup.
  rewrite operations_equals, operations_contains, operations_starts_with,
    operations_ends_with. simpl.
  intros H. apply bool_decide_eq_true in H. rewrite H. repeat split.
  - apply contains_spec. exists "", "". symmetry. apply append_nil_r.
  - apply startswith_spec. exists "". symmetry. apply append_nil_r.
  - apply endswith_spec. exists "". reflexivity.
Qed.

(** X8. A text that starts with or ends with the match text contains
    it. *)
Theorem prefix_or_suffix_is_contained (a b : string) (cs : bool) :
  evaluate_condition lower a b "starts with" cs = true \/
  evaluate_condition lower a b "ends with" cs = true ->
  evaluate_condition lower a b "contains" cs = true.
Proof.
  rewrite !evaluate_condition_lookup.
  rewrite operations_contains, operations_starts_with, operations_ends_with.
  simpl. rewrite startswith_spec, endswith_spec, contains_spec.
  intros [[r Hr] | [l Hl]].
  - exists "", r. exact Hr.
  - exists l, "". now rewrite append_nil_r.
Qed.

(** X9. Two texts each of which starts with the other, or each of which
    ends with the other, are equal under "equals". *)
Theorem mutual_prefix_is_equality (a b : string) (cs : bool) :
  (evaluate_condition lower a b "starts with" cs = true /\
   evaluate_condition lower b a "starts with" cs = true) \/
  (evaluate_condition lower a b "ends with" cs = true /\
   evaluate_condition lower b a "ends with" cs = true) ->
  evaluate_condition lower a b "equals" cs = true.
Proof.
  rewrite !evaluate_condition_lookup.
  rewrite operations_equals, !operations_starts_with, !operations_ends_with.
  simpl. rewrite !startswith_spec, !endswith_spec, bool_decide_eq_true.
  set (a' := if cs then a else lower a).
  set (b' := if cs then b else lower b).
  intros [[[r Hr] [r' Hr']] | [[l Hl] [l' Hl']]].
  - rewrite Hr in Hr'. rewrite append_assoc in Hr'.
    apply append_eq_self_r in Hr'.
    assert (r = "") as -> by (destruct r; [reflexivity | discriminate]).
    now rewrite append_nil_r in Hr.
  - rewrite Hl in Hl'. rewrite <- append_assoc in Hl'.
    apply append_eq_self_l in Hl'.
    assert (l = "") as -> by (destruct l', l; try reflexivity; discriminate).
    exact Hl.
Qed.

(** X10. "contains" is transitive: if [a] contains [b] and [b] contains
    [c] under one case flag, [a] contains [c]. *)
Theorem contains_is_transitive (a b c : string) (cs : bool) :
  evaluate_condition lower a b "contains" cs = true ->
  evaluate_condition lower b c "contains" cs = true ->
  evaluate_condition lower a c "contains" cs = true.
Proof.
  rewrite !evaluate_condition_lookup, !operations_contains. simpl.
  rewrite !contains_spec.
  intros (l1 & r1 & H1) (l2 & r2 & H2).
  exists (l1 +:+ l2), (r2 +:+ r1). rewrite H1, H2.
  now rewrite !append_assoc.
Qed.

(** X11. A match text longer than the input text (both taken after
    lower-casing when the comparison is case-insensitive) satisfies none
    of "equals", "contains", "starts with" and "ends with". *)
Theorem longer_match_text_never_matches (a b op : string) (cs : bool) :
  (String.length (if cs then a else lower a) <
   String.length (if cs then b else lower b))%nat ->
  op ∈ ["equals"; "contains"; "starts with"; "ends with"] ->
  evaluate_condition lower a b op cs = false.
Proof.
  intros Hlen Hop. apply not_true_is_false. intros H.
  rewrite evaluate_condition_lookup in H.
  set (a' := if cs then a else lower a) in *.
  set (b' := if cs then b else lower b) in *.
  assert (exists l r, a' = l +:+ b' +:+ r) as (l & r & E).
  { rewrite !elem_of_cons in Hop.
    destruct Hop as [->|[->|[->|[->|Hop]]]].
    - rewrite operations_equals in H. simpl in H.
      apply bool_decide_eq_true in H. exists "", "".
      rewrite H. symmetry. apply append_nil_r.
    - rewrite operations_contains in H. now apply contains_spec.
    - rewrite operations_starts_with in H. simpl in H.
      apply startswith_spec in H as [r Hr]. now exists "", r.
    - rewrite operations_ends_with in H. simpl in H.
      apply endswith_spec in H as [l Hl]. exists l, "".
      now rewrite append_nil_r.
    - now apply elem_of_nil in Hop. }
  apply (f_equal String.length) in E.
  rewrite !string_length_append in E. lia.
Qed.

(** X12. On an empty input text, "equals", "contains", "starts with"
    and "ends with" hold exactly when the match text (after
    lower-casing when the comparison is case-insensitive) is empty too;
    lower-casing the empty text gives the empty text. *)
Theorem empty_input_matches_only_empty (b op : string) (cs : bool) :
  lower "" = "" ->
  op ∈ ["equals"; "contains"; "starts with"; "ends with"] ->
  (evaluate_condition lower "" b op cs = true <->
   (if cs then b else lower b) = "").
Proof.
  intros Hnil Hop. rewrite evaluate_condition_lookup.
  replace (if cs then "" else lower "") with "" by (now destruct cs).
  set (b' := if cs then b else lower b).
  rewrite !elem_of_cons in Hop.
  destruct Hop as [->|[->|[->|[->|Hop]]]]; [..|now apply elem_of_nil in Hop].
  - rewrite operations_equals. simpl. rewrite bool_decide_eq_true.
    split; intros H; now rewrite H.
  - rewrite operations_contains. simpl. destruct b'; simpl; split;
      intros; try reflexivity; discriminate.
  - rewrite operations_starts_with. simpl. destruct b'; simpl; split;
      intros; try reflexivity; discriminate.
  - rewrite operations_ends_with. simpl. rewrite orb_false_r.
    rewrite bool_decide_eq_true. split; intros H; now rewrite H.
Qed.

End PredicateMore.

(** ** Properties of the vector store component *)

Lemma dict_truthy_true {V : Type} (d : gmap string V) :
  dict_truthy d = true <-> d <> ∅.
Proof.
  unfold dict_truthy. rewrite negb_true_iff, bool_decide_eq_false.
  apply map_size_non_empty_iff.
Qed.

Lemma dict_truthy_false {V : Type} (d : gmap string V) :
  dict_truthy d = false <-> d = ∅.
Proof.
  unfold dict_truthy. rewrite negb_false_iff, bool_decide_eq_true.
  apply map_size_empty_iff.
Qed.

Lemma str_truthy_true (s : string) : str_truthy s = true <-> s <> "".
Proof. unfold str_truthy. now rewrite negb_true_iff, bool_decide_eq_false. Qed.

Lemma clean_lookup {V : Type} (truthy : V -> bool)
    (sf : gmap string V) (k : string) (v : V) :
  HCD.clean truthy sf !! k = Some v <->
  sf !! k = Some v /\ k <> "" /\ truthy v = true.
Proof.
  unfold HCD.clean. rewrite map_lookup_filter_Some. simpl.
  rewrite <- str_truthy_true.
  destruct (str_truthy k), (truthy v); simpl; intuition congruence.
Qed.

(** X13. Whatever text the search type holds, [_map_search_type]
    answers with one of the three search types of the store. *)
Theorem map_search_type_range (search_type : string) :
  HCD._map_search_type search_type ∈
  ["similarity_score_threshold"; "mmr"; "similarity"].
Proof.
  unfold HCD._map_search_type.
  destruct (decide (search_type = "MMR (Max Marginal Relevance)")) as [->|H1].
  - rewrite lookup_insert_eq. simpl. set_solver.
  - rewrite lookup_insert_ne by congruence.
    destruct (decide (search_type = "Similarity with score threshold"))
      as [->|H2].
    + rewrite lookup_insert_eq. simpl. set_solver.
    + rewrite lookup_insert_ne by congruence. rewrite lookup_empty. simpl.
      set_solver.
Qed.

(** X14. Different options of the "Search Type" dropdown are mapped to
    different search types. *)
Theorem map_search_type_injective_on_options (s t : string) :
  s ∈ HCD.search_type_options ->
  t ∈ HCD.search_type_options ->
  HCD._map_search_type s = HCD._map_search_type t ->
  s = t.
Proof.
  unfold HCD.search_type_options. rewrite !elem_of_cons, !elem_of_nil.
  intros [->|[->|[->|[]]]] [->|[->|[->|[]]]]; vm_compute; congruence.
Qed.

Section SearchArgsFacts.

Context {V Score : Type}.
Variable truthy : V -> bool.

Implicit Types (c : HCD.SearchInputs V Score).

Lemma build_search_args_cases c :
  (HCD._build_search_args truthy c =
     <["score_threshold" := HCD.ArgFloat (HCD.search_score_threshold c)]>
       (<["k" := HCD.ArgInt (HCD.number_of_results c)]> ∅) /\
   forall sf, HCD.search_filter c = Some sf -> HCD.clean truthy sf = ∅) \/
  (exists sf,
     HCD.search_filter c = Some sf /\ HCD.clean truthy sf <> ∅ /\
     HCD._build_search_args truthy c =
       <["filter" := HCD.ArgFilter (HCD.clean truthy sf)]>
         (<["score_threshold" := HCD.ArgFloat (HCD.search_score_threshold c)]>
            (<["k" := HCD.ArgInt (HCD.number_of_results c)]> ∅))).
Proof.
  unfold HCD._build_search_args.
  destruct (HCD.search_filter c) as [sf|]; [|left; split; [reflexivity|discriminate]].
  destruct (dict_truthy sf) eqn:Hsf.
  - destruct (dict_truthy (HCD.clean truthy sf)) eqn:Hcl.
    + right. exists sf. apply dict_truthy_true in Hcl. now repeat split.
    + left. split; [reflexivity|]. intros ? [= <-].
      now apply dict_truthy_false.
  - left. split; [reflexivity|]. intros ? [= <-].
    apply dict_truthy_false in Hsf. subst sf.
    unfold HCD.clean. apply map_filter_empty.
Qed.

(** X15. When the search arguments carry a "filter", it is a non-empty
    dict made of exactly those entries of [search_filter] whose key is
    not empty and whose value is truthy. *)
Theorem search_filter_is_clean c (f : HCD.SearchArg V Score) :
  HCD._build_search_args truthy c !! "filter" = Some f ->
  exists sf cf,
    HCD.search_filter c = Some sf /\ f = HCD.ArgFilter cf /\ cf <> ∅ /\
    forall k v, cf !! k = Some v <->
                sf !! k = Some v /\ k <> "" /\ truthy v = true.
Proof.
  intros H. destruct (build_search_args_cases c) as [[E _]|(sf & Hsf & Hne & E)];
    rewrite E in H.
  - rewrite !lookup_insert_ne in H by discriminate.
    rewrite lookup_empty in H. discriminate.
  - rewrite lookup_insert_eq in H. injection H as <-.
    exists sf, (HCD.clean truthy sf).
    split; [exact Hsf|]. split; [reflexivity|]. split; [exact Hne|].
    intros k v. apply clean_lookup.
Qed.

(** X16. The search arguments carry no "filter" exactly when
    [search_filter] is missing or every one of its entries has an empty
    key or a falsy value. *)
Theorem search_filter_absent_iff c :
  HCD._build_search_args truthy c !! "filter" = None <->
  forall sf k v, HCD.search_filter c = Some sf -> sf !! k = Some v ->
                 k = "" \/ truthy v = false.
Proof.
  destruct (build_search_args_cases c) as [[E Hcl]|(sf & Hsf & Hne & E)];
    rewrite E.
  - rewrite !lookup_insert_ne by discriminate. rewrite lookup_empty.
    split; [intros _|reflexivity].
    intros sf k v Hsf Hkv. specialize (Hcl sf Hsf).
    destruct (decide (k = "")) as [|Hk]; [now left|right].
    destruct (truthy v) eqn:Hv; [|reflexivity].
    assert (HCD.clean truthy sf !! k = Some v) as Hin
      by (now apply clean_lookup).
    rewrite Hcl, lookup_empty in Hin. discriminate.
  - rewrite lookup_insert_eq. split; [discriminate|]. intros Hall.
    exfalso. apply Hne. apply map_empty. intros k.
    destruct (HCD.clean truthy sf !! k) as [v|] eqn:Hk; [|reflexivity].
    apply clean_lookup in Hk as (Hkv & Hk & Hv).
    destruct (Hall sf k v Hsf Hkv); congruence.
Qed.

(** X17. The search arguments always carry the number of results under
    "k" and the score threshold under "score_threshold", and no key
    beyond these two and "filter". *)
Theorem search_args_keys c :
  HCD._build_search_args truthy c !! "k"
    = Some (HCD.ArgInt (HCD.number_of_results c)) /\
  HCD._build_search_args truthy c !! "score_threshold"
    = Some (HCD.ArgFloat (HCD.search_score_threshold c)) /\
  forall key, is_Some (HCD._build_search_args truthy c !! key) ->
              key ∈ ["k"; "score_threshold"; "filter"].
Proof.
  destruct (build_search_args_cases c) as [[E _]|(sf & _ & _ & E)];
    rewrite E; (split; [|split]).
  - now rewrite lookup_insert_ne, lookup_insert_eq.
  - now rewrite lookup_insert_eq.
  - intros key [x Hx].
    destruct (decide (key = "score_threshold")) as [->|H1]; [set_solver|].
    rewrite lookup_insert_ne in Hx by congruence.
    destruct (decide (key = "k")) as [->|H2]; [set_solver|].
    rewrite lookup_insert_ne in Hx by congruence.
    rewrite lookup_empty in Hx. discriminate.
  - rewrite 2!lookup_insert_ne by discriminate. apply lookup_insert_eq.
  - rewrite lookup_insert_ne by discriminate. apply lookup_insert_eq.
  - intros key [x Hx].
    destruct (decide (key = "filter")) as [->|H0]; [set_solver|].
    rewrite lookup_insert_ne in Hx by congruence.
    destruct (decide (key = "score_threshold")) as [->|H1]; [set_solver|].
    rewrite lookup_insert_ne in Hx by congruence.
    destruct (decide (key = "k")) as [->|H2]; [set_solver|].
    rewrite lookup_insert_ne in Hx by congruence.
    rewrite lookup_empty in Hx. discriminate.
Qed.

End SearchArgsFacts.

Section IngestFacts.

Context {DataT Other Doc : Type}.
Variable to_lc_document : DataT -> Doc.
Variable add_documents : list Doc -> option string.

Implicit Types (items : list (HCD.IngestItem DataT Other)) (ds : list DataT).

Lemma collect_all_data ds (acc : list Doc) :
  HCD.collect to_lc_document (map (@HCD.IsData DataT Other) ds) acc =
  Some (acc ++ map to_lc_document ds).
Proof.
  revert acc. induction ds as [|d ds IH]; intros acc; simpl.
  - now rewrite app_nil_r.
  - rewrite IH. now rewrite <- app_assoc.
Qed.

Lemma collect_none_iff items (acc : list Doc) :
  HCD.collect to_lc_document items acc = None <->
  exists i, i ∈ items /\ HCD.is_data i = false.
Proof.
  revert acc. induction items as [|[d|o] items IH]; intros acc; simpl.
  - split; [discriminate|]. intros (i & Hi & _). now apply elem_of_nil in Hi.
  - rewrite IH. split.
    + intros (i & Hi & Hd). exists i. split; [now right | exact Hd].
    + intros (i & Hi & Hd). apply elem_of_cons in Hi as [->|Hi];
        [discriminate|]. now exists i.
  - split; [intros _|reflexivity]. exists (HCD.NotData o).
    split; [now left | reflexivity].
Qed.

(** X18. [_add_documents_to_vector_store] raises its [TypeError]
    exactly when some item of [ingest_data] is not a [Data] object, and
    it does so before anything is logged or sent to the store. *)
Theorem ingest_type_error_iff
    (ingest_data : option (list (HCD.IngestItem DataT Other))) :
  HCD._add_documents_to_vector_store to_lc_document add_documents ingest_data
    = ([], HCD.RaisedTypeError "Vector Store Inputs must be Data objects.")
  <->
  exists i, i ∈ default [] ingest_data /\ HCD.is_data i = false.
Proof.
  rewrite <- (collect_none_iff _ []).
  unfold HCD._add_documents_to_vector_store.
  destruct (HCD.collect to_lc_document (default [] ingest_data) [])
    as [[|doc docs]|].
  - split; discriminate.
  - destruct (add_documents (doc :: docs)); split; discriminate.
  - split; reflexivity.
Qed.

(** X19. When every item is a [Data] object, the documents reach the
    store in one call, converted one by one and in the order of the
    items; an exception of the store comes back as a [ValueError] that
    carries its text.  With no item at all the store is not called. *)
Theorem ingest_all_data ds :
  HCD._add_documents_to_vector_store to_lc_document add_documents
    (Some (map (@HCD.IsData DataT Other) ds)) =
  match ds with
  | [] => ([HCD.DebugNothingToAdd], HCD.Returned)
  | _ :: _ =>
      ([HCD.DebugAdding (length ds);
        HCD.AddDocuments (map to_lc_document ds)],
       match add_documents (map to_lc_document ds) with
       | None => HCD.Returned
       | Some e =>
           HCD.RaisedValueError
             ("Error adding documents to AstraDBVectorStore: " +:+ e)
       end)
  end.
Proof.
  unfold HCD._add_documents_to_vector_store. simpl default.
  rewrite collect_all_data. simpl app.
  destruct ds as [|d ds]; [reflexivity|]. simpl map. simpl length.
  rewrite length_map.
  now destruct (add_documents (to_lc_document d :: map to_lc_document ds)).
Qed.

(** X20. The store is never handed an empty batch: whenever
    [add_documents] is called, it is called once, with at least one
    document, right after the debug line that counts them. *)
Theorem store_never_gets_empty_batch
    (ingest_data : option (list (HCD.IngestItem DataT Other)))
    (docs : list Doc) :
  HCD.AddDocuments docs ∈
    fst (HCD._add_documents_to_vector_store to_lc_document add_documents
           ingest_data) ->
  docs <> [] /\
  fst (HCD._add_documents_to_vector_store to_lc_document add_documents
         ingest_data)
  = [HCD.DebugAdding (length docs); HCD.AddDocuments docs].
Proof.
  unfold HCD._add_documents_to_vector_store.
  destruct (HCD.collect to_lc_document (default [] ingest_data) [])
    as [[|doc ds]|]; simpl.
  - intros H. rewrite elem_of_cons, elem_of_nil in H.
    destruct H as [H|[]]. discriminate.
  - assert (
      HCD.AddDocuments docs ∈
        [HCD.DebugAdding (S (length ds)); HCD.AddDocuments (doc :: ds)] ->
      docs <> [] /\
      [HCD.DebugAdding (S (length ds)); HCD.AddDocuments (doc :: ds)] =
      [HCD.DebugAdding (length docs); HCD.AddDocuments docs]) as Hgen.
    { intros H. rewrite !elem_of_cons, elem_of_nil in H.
      destruct H as [H|[H|[]]]; [discriminate|].
      injection H as ->. split; [discriminate | reflexivity]. }
    destruct (add_documents (doc :: ds)); simpl; exact Hgen.
  - intros H. now apply elem_of_nil in H.
Qed.

End IngestFacts.

(** ** Properties of the LeMUR component *)

(** X21. [get_final_model] returns a model exactly for the four options
    of the "Final Model" dropdown; any other name gives the
    [ValueError] text that repeats the name. *)
Theorem final_model_supported_iff (model_name : string) :
  ((exists m, LeMUR.get_final_model model_name = inl m) <->
   model_name ∈ LeMUR.final_model_options) /\
  (model_name ∉ LeMUR.final_model_options ->
   LeMUR.get_final_model model_name =
   inr ("Model name not supported: " +:+ model_name)).
Proof.
  unfold LeMUR.get_final_model, LeMUR.final_model_options.
  rewrite !elem_of_cons, elem_of_nil.
  repeat case_bool_decide; subst; split;
    try (split; [intros _; tauto | intros _; eexists; reflexivity]);
    try (intros Hn; exfalso; apply Hn; tauto).
  - split; [intros [m Hm]; discriminate | intros H'; exfalso; tauto].
  - reflexivity.
Qed.

(** X22. Two names that [get_final_model] maps to the same model are
    the same name. *)
Theorem final_model_injective (s t : string) (m : LeMUR.LemurModel) :
  LeMUR.get_final_model s = inl m ->
  LeMUR.get_final_model t = inl m ->
  s = t.
Proof.
  unfold LeMUR.get_final_model.
  repeat case_bool_decide; subst; intros Hs Ht;
    try discriminate; try reflexivity; congruence.
Qed.

(** ** The further statements at the concrete instances *)

Lemma single_update_without_reset_witness :
  counter_ok example_state = true /\
  exists rs1 st1 rs2 st2,
    (__init__ ;;; call_all PyStr.ascii_lower [TrueResponse; FalseResponse])
      example_state = Ok rs1 st1 /\
    call_all PyStr.ascii_lower [FalseResponse; TrueResponse] st1 = Ok rs2 st2 /\
    graph st1 = guarded_graph PyStr.ascii_lower example_state /\
    graph st2 = graph st1.
Proof.
  split; [reflexivity|].
  apply (single_update_without_reset PyStr.ascii_lower example_state
           TrueResponse [FalseResponse] [FalseResponse; TrueResponse]).
  reflexivity.
Defined.

Lemma run_counts_visits_witness :
  counter_ok example_state = true /\
  exists st',
    run PyStr.ascii_lower [example_visit; example_visit] example_state
      = Ok tt st' /\
    iteration_count st' =
      iteration_count example_state
      + Z.of_nat (length [example_visit; example_visit]) /\
    forall k, k <> iteration_key (self example_state) ->
              context (graph st') !! k = context (graph example_state) !! k.
Proof.
  split; [reflexivity|].
  apply (run_counts_visits PyStr.ascii_lower [example_visit; example_visit]
           example_state).
  reflexivity.
Defined.

Lemma run_signals_are_outputs_witness :
  counter_ok example_state = true /\
  exists st' sent,
    run PyStr.ascii_lower [example_visit; example_visit] example_state
      = Ok tt st' /\
    stop_signals (graph st') = stop_signals (graph example_state) ++ sent /\
    length sent = length [example_visit; example_visit] /\
    Forall (fun e => e = "true_result" \/ e = "false_result") sent.
Proof.
  split; [reflexivity|].
  apply (run_signals_are_outputs PyStr.ascii_lower
           [example_visit; example_visit] example_state).
  reflexivity.
Defined.

Lemma other_edge_stopped_iff_witness :
  counter_ok example_state = true /\
  (other_edge_stopped PyStr.ascii_lower example_state <->
   iteration_count example_state + 1 < max_iterations (self example_state) \/
   untaken_edge PyStr.ascii_lower (self example_state)
     <> default_route (self example_state)).
Proof.
  split; [reflexivity|].
  apply (other_edge_stopped_iff PyStr.ascii_lower example_state).
  reflexivity.
Defined.

Lemma status_after_cycle_witness :
  counter_ok example_state = true /\
  exists rs st',
    cycle PyStr.ascii_lower [FalseResponse; TrueResponse] example_state
      = Ok rs st' /\
    status (self st') =
    if bool_decide (taken_edge PyStr.ascii_lower (self example_state)
                    ∈ map output_name [FalseResponse; TrueResponse])
    then Some (message (self example_state))
    else status (self example_state).
Proof.
  split; [reflexivity|].
  apply (status_after_cycle PyStr.ascii_lower example_state FalseResponse
           [TrueResponse]).
  reflexivity.
Defined.

Lemma equals_implies_the_others_witness :
  evaluate_condition PyStr.ascii_lower "Abc" "aBC" "equals" false = true /\
  evaluate_condition PyStr.ascii_lower "Abc" "aBC" "contains" false = true /\
  evaluate_condition PyStr.ascii_lower "Abc" "aBC" "starts with" false = true /\
  evaluate_condition PyStr.ascii_lower "Abc" "aBC" "ends with" false = true.
Proof.
  split; [reflexivity|].
  apply (equals_implies_the_others PyStr.ascii_lower "Abc" "aBC" false).
  reflexivity.
Defined.

Lemma prefix_or_suffix_is_contained_witness :
  (evaluate_condition PyStr.ascii_lower "hello world" "world" "starts with" true
     = true \/
   evaluate_condition PyStr.ascii_lower "hello world" "world" "ends with" true
     = true) /\
  evaluate_condition PyStr.ascii_lower "hello world" "world" "contains" true
    = true.
Proof.
  split; [right; reflexivity|].
  apply (prefix_or_suffix_is_contained PyStr.ascii_lower "hello world" "world"
           true).
  right; reflexivity.
Defined.

Lemma mutual_prefix_is_equality_witness :
  ((evaluate_condition PyStr.ascii_lower "Abc" "abC" "starts with" false = true /\
    evaluate_condition PyStr.ascii_lower "abC" "Abc" "starts with" false = true)
   \/
   (evaluate_condition PyStr.ascii_lower "Abc" "abC" "ends with" false = true /\
    evaluate_condition PyStr.ascii_lower "abC" "Abc" "ends with" false = true))
  /\ evaluate_condition PyStr.ascii_lower "Abc" "abC" "equals" false = true.
Proof.
  split; [left; split; reflexivity|].
  apply (mutual_prefix_is_equality PyStr.ascii_lower "Abc" "abC" false).
  left; split; reflexivity.
Defined.

Lemma contains_is_transitive_witness :
  evaluate_condition PyStr.ascii_lower "hello world" "lo wor" "contains" true
    = true /\
  evaluate_condition PyStr.ascii_lower "lo wor" "o w" "contains" true = true /\
  evaluate_condition PyStr.ascii_lower "hello world" "o w" "contains" true
    = true.
Proof.
  split; [reflexivity|]. split; [reflexivity|].
  apply (contains_is_transitive PyStr.ascii_lower "hello world" "lo wor" "o w"
           true); reflexivity.
Defined.

Lemma longer_match_text_never_matches_witness :
  (String.length "ab" < String.length "abc")%nat /\
  "starts with" ∈ ["equals"; "contains"; "starts with"; "ends with"] /\
  evaluate_condition PyStr.ascii_lower "ab" "abc" "starts with" true = false.
Proof.
  split; [simpl; lia|].
  split; [apply (bool_decide_unpack _); vm_compute; exact I|].
  apply (longer_match_text_never_matches PyStr.ascii_lower "ab" "abc"
           "starts with" true).
  - simpl; lia.
  - apply (bool_decide_unpack _); vm_compute; exact I.
Defined.

Lemma empty_input_matches_only_empty_witness :
  PyStr.ascii_lower "" = "" /\
  "ends with" ∈ ["equals"; "contains"; "starts with"; "ends with"] /\
  (evaluate_condition PyStr.ascii_lower "" "X" "ends with" false = true <->
   PyStr.ascii_lower "X" = "").
Proof.
  split; [reflexivity|].
  split; [apply (bool_decide_unpack _); vm_compute; exact I|].
  apply (empty_input_matches_only_empty PyStr.ascii_lower "X" "ends with"
           false).
  - reflexivity.
  - apply (bool_decide_unpack _); vm_compute; exact I.
Defined.

Lemma map_search_type_injective_on_options_witness :
  "Similarity" ∈ HCD.search_type_options /\
  HCD._map_search_type "Similarity" = HCD._map_search_type "Similarity" /\
  "Similarity" = "Similarity".
Proof.
  split; [apply (bool_decide_unpack _); vm_compute; exact I|].
  split; [reflexivity|].
  apply (map_search_type_injective_on_options "Similarity" "Similarity").
  - apply (bool_decide_unpack _); vm_compute; exact I.
  - apply (bool_decide_unpack _); vm_compute; exact I.
  - reflexivity.
Defined.

Lemma search_filter_is_clean_witness :
  HCD._build_search_args py_truthy example_search !! "filter"
    = Some (HCD.ArgFilter (HCD.clean py_truthy example_filter)) /\
  exists sf cf,
    HCD.search_filter example_search = Some sf /\
    @HCD.ArgFilter PyVal Z (HCD.clean py_truthy example_filter)
      = HCD.ArgFilter cf /\
    cf <> ∅ /\
    forall k v, cf !! k = Some v <->
                sf !! k = Some v /\ k <> "" /\ py_truthy v = true.
Proof.
  split; [reflexivity|].
  apply (search_filter_is_clean py_truthy example_search
           (HCD.ArgFilter (HCD.clean py_truthy example_filter))).
  reflexivity.
Defined.

Lemma store_never_gets_empty_batch_witness :
  HCD.AddDocuments ["a"; "b"] ∈
    fst (HCD._add_documents_to_vector_store example_to_lc_document
           example_add_documents example_ingest) /\
  ["a"; "b"] <> [] /\
  fst (HCD._add_documents_to_vector_store example_to_lc_document
         example_add_documents example_ingest)
  = [HCD.DebugAdding (length ["a"; "b"]); HCD.AddDocuments ["a"; "b"]].
Proof.
  split; [simpl; right; left|].
  apply (store_never_gets_empty_batch example_to_lc_document
           example_add_documents example_ingest ["a"; "b"]).
  simpl; right; left.
Defined.

Lemma final_model_injective_witness :
  LeMUR.get_final_model "claude3_opus" = inl LeMUR.claude3_opus /\
  "claude3_opus" = "claude3_opus".
Proof.
  split; [reflexivity|].
  apply (final_model_injective "claude3_opus" "claude3_opus"
           LeMUR.claude3_opus); reflexivity.
Defined.
